(** * grammy-callbacks: callback registry, token codec and wait protocol

    A shallow embedding of [src/callback-registry.ts], [src/wait.ts] and the
    dispatcher of [src/callbacks-middleware.ts], with the properties of the
    specification stated and proved over it.

    Conventions of the embedding.
    - A JavaScript string is a Rocq [string]; every character stands for one
      UTF-16 code unit below 256 (the Latin-1 range), so [String.length] is
      [.length] and [slice] counts code units.
    - An object used as a dictionary ([Record<string, T>]) is a [gmap string T]
      of its own properties.
    - [async] functions are run to completion one after the other: an awaited
      call is a state transformer on the [World], a rejected promise is the
      [Throw] completion.
    - An object compared with [===] carries the reference it was allocated at. *)

From Stdlib Require Import ZArith Ascii String List Bool Lia.
From Stdlib Require Import DecimalString DecimalPos DecimalZ.
From stdpp Require Import base option gmap strings list.

Local Open Scope string_scope.
Local Open Scope Z_scope.

(** stdpp freezes [String.append] under [simpl]; the proofs below compute
    with it. *)
#[local] Arguments String.append !_ _ / : simpl nomatch.

(** ** JavaScript string primitives used by the sources *)

Module JsString.

(** [s.slice(start, end)] of ECMAScript: negative indices count from the
    end, both bounds are clamped to [0, s.length]; [None] is an omitted
    [end]. *)
Definition clampIndex (len i : Z) : Z :=
  if i <? 0 then Z.max (len + i) 0 else Z.min i len.

Definition slice (s : string) (start : Z) (end_ : option Z) : string :=
  let len := Z.of_nat (String.length s) in
  let from := clampIndex len start in
  let to := match end_ with None => len | Some e => clampIndex len e end in
  String.substring (Z.to_nat from) (Z.to_nat (Z.max (to - from) 0)) s.

(** [s.split(sep)] for a one-character separator: never empty. *)
Fixpoint split (sep : ascii) (s : string) : list string :=
  match s with
  | EmptyString => [EmptyString]
  | String c s' =>
      if Ascii.eqb c sep then EmptyString :: split sep s'
      else match split sep s' with
           | [] => [String c EmptyString]
           | p :: ps => String c p :: ps
           end
  end.

(** [s.split(sep, limit)]. *)
Definition splitLimit (sep : ascii) (limit : nat) (s : string) : list string :=
  take limit (split sep s).

(** [s.startsWith(p)]. *)
Definition startsWith (p s : string) : bool := String.prefix p s.

(** [s[0]], [undefined] on the empty string. *)
Definition charAt0 (s : string) : option ascii :=
  match s with EmptyString => None | String c _ => Some c end.

(** One code unit of [toLowerCase]: in the Latin-1 range the letters with a
    lower-case partner are A-Z, U+00C0-U+00D6 and U+00D8-U+00DE, all mapped
    32 places up. *)
Definition lowerUnit (c : ascii) : ascii :=
  let n := nat_of_ascii c in
  if ((65 <=? n) && (n <=? 90))%nat
     || ((192 <=? n) && (n <=? 214))%nat
     || ((216 <=? n) && (n <=? 222))%nat
  then ascii_of_nat (n + 32) else c.

Fixpoint toLowerCase (s : string) : string :=
  match s with
  | EmptyString => EmptyString
  | String c s' => String (lowerUnit c) (toLowerCase s')
  end.

(** A string is truthy when it is not empty. *)
Definition truthy (s : string) : bool :=
  match s with EmptyString => false | _ => true end.

(** [s || undefined]. *)
Definition orUndefined (s : string) : option string :=
  if truthy s then Some s else None.

(** The characters of a string, for character-class predicates. *)
Definition chars (s : string) : list ascii := list_ascii_of_string s.

End JsString.

(** ** Completion of a call: a value or a thrown error

    What a call throws, or a promise rejects with: an [Error] object of one
    of three classes, or [null] or [undefined], which have no property to
    read. *)

Inductive JsError : Type :=
| Error (message : string)
| TypeError (message : string)
| SyntaxError (message : string)
| ThrownNull
| ThrownUndefined.

Inductive Result (A : Type) : Type :=
| Ok (a : A)
| Throw (e : JsError).
Arguments Ok {A} a.
Arguments Throw {A} e.

(** ** Token codec: [splitCallbackData] *)

Definition colon : ascii := ":"%char.

(** [const [prefix, hash] = callbackData.split(':', 2)]: [hash] is
    [undefined] when the data holds no colon, and [hash.length] then raises. *)
Definition splitCallbackData (callbackData : string)
  : Result (string * string * option string) :=
  let parts := JsString.splitLimit colon 2 callbackData in
  let prefix := default "" (parts !! 0%nat) in
  let hash := parts !! 1%nat in
  if negb (JsString.truthy prefix)
     || negb (String.length prefix =? 3)%nat
     || negb (bool_decide (JsString.charAt0 prefix = Some "_"%char))
  then Ok ("", "", None)
  else match hash with
       | None => Throw (TypeError "Cannot read properties of undefined (reading 'length')")
       | Some hash =>
           let paramsJson :=
             JsString.slice callbackData
               (Z.of_nat (String.length prefix) + Z.of_nat (String.length hash) + 2) None in
           Ok (prefix, hash, JsString.orUndefined paramsJson)
       end.

(** ** MD5 ([utils/md5.ts]: [crypto.createHash('md5').update(content).digest('hex')]) *)

Module MD5.

Definition add32 (a b : Z) : Z := (a + b) mod 2 ^ 32.
Definition not32 (a : Z) : Z := Z.lxor a 0xffffffff.
Definition rotl32 (x n : Z) : Z :=
  Z.lor (Z.shiftl x n mod 2 ^ 32) (Z.shiftr x (32 - n)).

Definition K : list Z :=
  [0xd76aa478; 0xe8c7b756; 0x242070db; 0xc1bdceee;
   0xf57c0faf; 0x4787c62a; 0xa8304613; 0xfd469501;
   0x698098d8; 0x8b44f7af; 0xffff5bb1; 0x895cd7be;
   0x6b901122; 0xfd987193; 0xa679438e; 0x49b40821;
   0xf61e2562; 0xc040b340; 0x265e5a51; 0xe9b6c7aa;
   0xd62f105d; 0x02441453; 0xd8a1e681; 0xe7d3fbc8;
   0x21e1cde6; 0xc33707d6; 0xf4d50d87; 0x455a14ed;
   0xa9e3e905; 0xfcefa3f8; 0x676f02d9; 0x8d2a4c8a;
   0xfffa3942; 0x8771f681; 0x6d9d6122; 0xfde5380c;
   0xa4beea44; 0x4bdecfa9; 0xf6bb4b60; 0xbebfbc70;
   0x289b7ec6; 0xeaa127fa; 0xd4ef3085; 0x04881d05;
   0xd9d4d039; 0xe6db99e5; 0x1fa27cf8; 0xc4ac5665;
   0xf4292244; 0x432aff97; 0xab9423a7; 0xfc93a039;
   0x655b59c3; 0x8f0ccc92; 0xffeff47d; 0x85845dd1;
   0x6fa87e4f; 0xfe2ce6e0; 0xa3014314; 0x4e0811a1;
   0xf7537e82; 0xbd3af235; 0x2ad7d2bb; 0xeb86d391].

Definition shifts : list Z :=
  [7; 12; 17; 22; 7; 12; 17; 22; 7; 12; 17; 22; 7; 12; 17; 22;
   5; 9; 14; 20; 5; 9; 14; 20; 5; 9; 14; 20; 5; 9; 14; 20;
   4; 11; 16; 23; 4; 11; 16; 23; 4; 11; 16; 23; 4; 11; 16; 23;
   6; 10; 15; 21; 6; 10; 15; 21; 6; 10; 15; 21; 6; 10; 15; 21].

(** The content is hashed as UTF-8: a code unit below 128 is one byte, one
    in 128..255 is two. *)
Definition utf8Unit (c : ascii) : list Z :=
  let n := Z.of_nat (nat_of_ascii c) in
  if n <? 128 then [n] else [0xC0 + n / 64; 0x80 + n mod 64].

Fixpoint utf8 (s : string) : list Z :=
  match s with
  | EmptyString => []
  | String c s' => utf8Unit c ++ utf8 s'
  end.

Definition le32 (x : Z) : list Z :=
  [x mod 256; (x / 2 ^ 8) mod 256; (x / 2 ^ 16) mod 256; (x / 2 ^ 24) mod 256].

Definition le64 (x : Z) : list Z := le32 (x mod 2 ^ 32) ++ le32 ((x / 2 ^ 32) mod 2 ^ 32).

(** Padding: a 1 bit, zeros up to 56 modulo 64, then the bit length. *)
Definition pad (msg : list Z) : list Z :=
  let len := Z.of_nat (length msg) in
  let zeros := Z.to_nat ((55 - len) mod 64) in
  msg ++ [0x80] ++ replicate zeros 0 ++ le64 (8 * len).

Definition word (block : list Z) (g : nat) : Z :=
  let b k := nth (4 * g + k) block 0 in
  b 0%nat + b 1%nat * 2 ^ 8 + b 2%nat * 2 ^ 16 + b 3%nat * 2 ^ 24.

Definition step (block : list Z) (st : Z * Z * Z * Z) (i : nat) : Z * Z * Z * Z :=
  let '(a, b, c, d) := st in
  let '(f, g) :=
    if (i <? 16)%nat then (Z.lor (Z.land b c) (Z.land (not32 b) d), i)
    else if (i <? 32)%nat then
      (Z.lor (Z.land d b) (Z.land (not32 d) c), ((5 * i + 1) mod 16)%nat)
    else if (i <? 48)%nat then (Z.lxor (Z.lxor b c) d, ((3 * i + 5) mod 16)%nat)
    else (Z.lxor c (Z.lor b (not32 d)), ((7 * i) mod 16)%nat) in
  let f' := add32 (add32 (add32 f a) (nth i K 0)) (word block g) in
  (d, add32 b (rotl32 f' (nth i shifts 0)), b, c).

Definition processBlock (st : Z * Z * Z * Z) (block : list Z) : Z * Z * Z * Z :=
  let '(a0, b0, c0, d0) := st in
  let '(a, b, c, d) := fold_left (step block) (seq 0 64) st in
  (add32 a0 a, add32 b0 b, add32 c0 c, add32 d0 d).

Fixpoint digestBlocks (fuel : nat) (bytes : list Z) (st : Z * Z * Z * Z)
  : Z * Z * Z * Z :=
  match fuel, bytes with
  | O, _ | _, [] => st
  | S fuel', _ => digestBlocks fuel' (drop 64 bytes) (processBlock st (take 64 bytes))
  end.

Definition initial : Z * Z * Z * Z := (0x67452301, 0xefcdab89, 0x98badcfe, 0x10325476).

Definition digest (msg : list Z) : list Z :=
  let bytes := pad msg in
  let '(a, b, c, d) := digestBlocks (length bytes) bytes initial in
  le32 a ++ le32 b ++ le32 c ++ le32 d.

Definition hexDigits : list ascii := JsString.chars "0123456789abcdef".

Definition hexDigit (n : Z) : ascii := nth (Z.to_nat (n mod 16)) hexDigits "0"%char.

Fixpoint hex (bytes : list Z) : string :=
  match bytes with
  | [] => EmptyString
  | b :: bs => String (hexDigit (b / 16)) (String (hexDigit b) (hex bs))
  end.

Definition md5Hex (content : string) : string := hex (digest (utf8 content)).

End MD5.

Definition md5Hex := MD5.md5Hex.

(** ** Values and JSON

    The arguments of a callback are [any[]]. The embedding keeps the values
    that JSON can carry, with [undefined] beside them and a host object,
    such as the context, that JSON does not carry; numbers are the integers
    (doubles are not modelled). The induction principles of the nested types
    are proved where they are used. *)

Local Unset Elimination Schemes.

(** A value; the fields of an object are listed in the order [Object.keys]
    enumerates them. *)
Inductive JsValue : Type :=
| VUndefined
| VNull
| VBool (b : bool)
| VNum (n : Z)
| VStr (s : string)
| VArr (items : list JsValue)
| VObj (fields : list (string * JsValue))
| VHost (name : string).

Local Set Elimination Schemes.

(** Truthiness, as [if (v)] and [&&] see it. *)
Definition truthy (v : JsValue) : bool :=
  match v with
  | VUndefined | VNull | VBool false | VNum 0 | VStr EmptyString => false
  | _ => true
  end.

(** [v === false]. *)
Definition isFalse (v : JsValue) : bool :=
  match v with VBool false => true | _ => false end.

Module JSON.

Definition dquote : ascii := "034"%char.
Definition backslash : ascii := "092"%char.
Definition str1 (c : ascii) : string := String c EmptyString.

(** *** [JSON.stringify] *)

Definition hex4 (n : Z) : string :=
  String "0" (String "0" (String (MD5.hexDigit (n / 16)) (str1 (MD5.hexDigit n)))).

Definition escapeUnit (c : ascii) : string :=
  let n := nat_of_ascii c in
  if (n =? 34)%nat then String backslash (str1 dquote)
  else if (n =? 92)%nat then String backslash (str1 backslash)
  else if (n =? 8)%nat then String backslash "b"
  else if (n =? 12)%nat then String backslash "f"
  else if (n =? 10)%nat then String backslash "n"
  else if (n =? 13)%nat then String backslash "r"
  else if (n =? 9)%nat then String backslash "t"
  else if (n <? 32)%nat then String backslash (String "u" (hex4 (Z.of_nat n)))
  else str1 c.

Fixpoint escape (s : string) : string :=
  match s with
  | EmptyString => EmptyString
  | String c s' => escapeUnit c ++ escape s'
  end.

Definition quote (s : string) : string :=
  String dquote (escape s ++ str1 dquote).

Definition numberToString (n : Z) : string := NilZero.string_of_int (Z.to_int n).

(** An array element that is [undefined] is written [null]; an object
    member that is [undefined] is left out. A host object is outside what
    the embedding serialises: [safe] below rejects it. *)
Fixpoint stringify (v : JsValue) : string :=
  match v with
  | VUndefined | VNull => "null"
  | VBool true => "true"
  | VBool false => "false"
  | VNum n => numberToString n
  | VStr s => quote s
  | VArr items =>
      "[" ++ String.concat ","
               ((fix elems (l : list JsValue) : list string :=
                   match l with
                   | [] => []
                   | x :: l' => stringify x :: elems l'
                   end) items) ++ "]"
  | VObj fields =>
      "{" ++ String.concat ","
               ((fix members (l : list (string * JsValue)) : list string :=
                   match l with
                   | [] => []
                   | (k, x) :: l' =>
                       match x with
                       | VUndefined => members l'
                       | _ => (quote k ++ ":" ++ stringify x) :: members l'
                       end
                   end) fields) ++ "}"
  | VHost _ => "{}"
  end.

(** *** [JSON.parse] *)

Definition isWs (c : ascii) : bool :=
  let n := nat_of_ascii c in
  ((n =? 32) || (n =? 9) || (n =? 10) || (n =? 13))%nat.

Fixpoint skipWs (s : string) : string :=
  match s with
  | String c r => if isWs c then skipWs r else s
  | EmptyString => s
  end.

Definition hexValue (c : ascii) : option nat :=
  let n := nat_of_ascii c in
  if ((48 <=? n) && (n <=? 57))%nat then Some (n - 48)%nat
  else if ((97 <=? n) && (n <=? 102))%nat then Some (n - 87)%nat
  else if ((65 <=? n) && (n <=? 70))%nat then Some (n - 55)%nat
  else None.

Definition simpleEscape (e : ascii) : option ascii :=
  let n := nat_of_ascii e in
  if (n =? 34)%nat then Some dquote
  else if (n =? 92)%nat then Some backslash
  else if (n =? 47)%nat then Some "/"%char
  else if (n =? 98)%nat then Some "008"%char
  else if (n =? 102)%nat then Some "012"%char
  else if (n =? 110)%nat then Some "010"%char
  else if (n =? 114)%nat then Some "013"%char
  else if (n =? 116)%nat then Some "009"%char
  else None.

Definition consChar (c : ascii) (r : option (string * string)) : option (string * string) :=
  match r with
  | Some (t, rest) => Some (String c t, rest)
  | None => None
  end.

(** The characters of a string literal after its opening quote, up to and
    including the closing one. An escape [\uXXXX] above the Latin-1 range
    has no counterpart among the modelled strings. *)
Fixpoint parseChars (s : string) : option (string * string) :=
  match s with
  | EmptyString => None
  | String c rest =>
      if Ascii.eqb c dquote then Some (EmptyString, rest)
      else if Ascii.eqb c backslash then
        match rest with
        | String e rest' =>
            if Ascii.eqb e "u" then
              match rest' with
              | String h1 (String h2 (String h3 (String h4 rest''))) =>
                  match hexValue h1, hexValue h2, hexValue h3, hexValue h4 with
                  | Some a, Some b, Some c', Some d =>
                      let code := (((a * 16 + b) * 16 + c') * 16 + d)%nat in
                      if (code <? 256)%nat
                      then consChar (ascii_of_nat code) (parseChars rest'')
                      else None
                  | _, _, _, _ => None
                  end
              | _ => None
              end
            else match simpleEscape e with
                 | Some c' => consChar c' (parseChars rest')
                 | None => None
                 end
        | EmptyString => None
        end
      else if (nat_of_ascii c <? 32)%nat then None
      else consChar c (parseChars rest)
  end.

Definition isNumberChar (c : ascii) : bool :=
  let n := nat_of_ascii c in
  ((n =? 45) || ((48 <=? n) && (n <=? 57)))%nat.

Fixpoint spanNumber (s : string) : string * string :=
  match s with
  | String c r =>
      if isNumberChar c then let '(lit, rest) := spanNumber r in (String c lit, rest)
      else (EmptyString, s)
  | EmptyString => (EmptyString, EmptyString)
  end.

(** An integer literal, in the one spelling JSON allows for it. *)
Definition parseNumber (s : string) : option (JsValue * string) :=
  let '(lit, rest) := spanNumber s in
  match NilZero.int_of_string lit with
  | Some d =>
      let n := Z.of_int d in
      if String.eqb (numberToString n) lit then Some (VNum n, rest) else None
  | None => None
  end.

Definition expect (word : string) (v : JsValue) (s : string) : option (JsValue * string) :=
  if String.prefix word s
  then Some (v, String.substring (String.length word)
                  (String.length s - String.length word) s)
  else None.

(** [o[k] = v] on the fields of an object. *)
Fixpoint objSet (fields : list (string * JsValue)) (k : string) (v : JsValue)
  : list (string * JsValue) :=
  match fields with
  | [] => [(k, v)]
  | (k', v') :: fs => if String.eqb k' k then (k', v) :: fs else (k', v') :: objSet fs k v
  end.

Definition objOfMembers (ms : list (string * JsValue)) : list (string * JsValue) :=
  fold_left (fun acc kv => objSet acc (fst kv) (snd kv)) ms [].

Fixpoint parseValue (fuel : nat) (s : string) {struct fuel} : option (JsValue * string) :=
  match fuel with
  | O => None
  | S fuel' =>
      match skipWs s with
      | EmptyString => None
      | String c rest =>
          if Ascii.eqb c "n" then expect "ull" VNull rest
          else if Ascii.eqb c "t" then expect "rue" (VBool true) rest
          else if Ascii.eqb c "f" then expect "alse" (VBool false) rest
          else if Ascii.eqb c dquote then
            match parseChars rest with
            | Some (str, r) => Some (VStr str, r)
            | None => None
            end
          else if Ascii.eqb c "[" then
            match skipWs rest with
            | String c' r =>
                if Ascii.eqb c' "]" then Some (VArr [], r)
                else match parseElems fuel' rest with
                     | Some (items, r') => Some (VArr items, r')
                     | None => None
                     end
            | EmptyString => None
            end
          else if Ascii.eqb c "{" then
            match skipWs rest with
            | String c' r =>
                if Ascii.eqb c' "}" then Some (VObj [], r)
                else match parseMembers fuel' rest with
                     | Some (ms, r') => Some (VObj (objOfMembers ms), r')
                     | None => None
                     end
            | EmptyString => None
            end
          else parseNumber (String c rest)
      end
  end
with parseElems (fuel : nat) (s : string) {struct fuel} : option (list JsValue * string) :=
  match fuel with
  | O => None
  | S fuel' =>
      match parseValue fuel' s with
      | Some (v, r) =>
          match skipWs r with
          | String c r' =>
              if Ascii.eqb c "," then
                match parseElems fuel' r' with
                | Some (vs, r'') => Some (v :: vs, r'')
                | None => None
                end
              else if Ascii.eqb c "]" then Some ([v], r')
              else None
          | EmptyString => None
          end
      | None => None
      end
  end
with parseMembers (fuel : nat) (s : string) {struct fuel}
  : option (list (string * JsValue) * string) :=
  match fuel with
  | O => None
  | S fuel' =>
      match skipWs s with
      | String q r0 =>
          if Ascii.eqb q dquote then
            match parseChars r0 with
            | Some (k, r1) =>
                match skipWs r1 with
                | String c1 r2 =>
                    if Ascii.eqb c1 ":" then
                      match parseValue fuel' r2 with
                      | Some (v, r3) =>
                          match skipWs r3 with
                          | String c r' =>
                              if Ascii.eqb c "," then
                                match parseMembers fuel' r' with
                                | Some (ms, r'') => Some ((k, v) :: ms, r'')
                                | None => None
                                end
                              else if Ascii.eqb c "}" then Some ([(k, v)], r')
                              else None
                          | EmptyString => None
                          end
                      | None => None
                      end
                    else None
                | EmptyString => None
                end
            | None => None
            end
          else None
      | EmptyString => None
      end
  end.

(** [JSON.parse(text)]: [None] is the [SyntaxError]. Number literals with a
    fraction or an exponent denote doubles: they are outside the modelled
    values, and the parser has no case for them. *)
Definition parse (text : string) : option JsValue :=
  match parseValue (S (String.length text)) text with
  | Some (v, r) => match skipWs r with EmptyString => Some v | _ => None end
  | None => None
  end.

(** The values [JSON.parse (JSON.stringify v)] gives back unchanged: no
    [undefined], integers a double holds exactly, objects whose keys are
    distinct and none an array index (those are enumerated first). *)
Definition maxSafeInteger : Z := 2 ^ 53 - 1.

Definition isDigit (c : ascii) : bool :=
  let n := nat_of_ascii c in ((48 <=? n) && (n <=? 57))%nat.

Definition indexLike (k : string) : bool :=
  match k with
  | EmptyString => false
  | String _ _ => forallb isDigit (JsString.chars k)
  end.

Fixpoint safe (v : JsValue) : bool :=
  match v with
  | VUndefined => false
  | VNull | VBool _ | VStr _ => true
  | VNum n => (- maxSafeInteger <=? n) && (n <=? maxSafeInteger)
  | VArr items =>
      (fix all (l : list JsValue) : bool :=
         match l with [] => true | x :: l' => safe x && all l' end) items
  | VObj fields =>
      bool_decide (NoDup (map fst fields))
      && (fix all (l : list (string * JsValue)) : bool :=
            match l with
            | [] => true
            | (k, x) :: l' => negb (indexLike k) && safe x && all l'
            end) fields
  | VHost _ => false
  end.

End JSON.

(** ** Data model ([callback-types.ts]) *)

Definition FilterQuery := string.

(** The part of the host context the library reads: [ctx.message?.text],
    [ctx.callbackQuery?.data] and the capability query [ctx.has(filter)]. *)
Record Context : Type := {
  message_text : option string;
  callbackQuery_data : option string;
  has : list FilterQuery -> bool
}.

(** [WaitState], with the reference of the object literal that created it. *)
Record WaitState : Type := {
  ws_ref : nat;
  messageId : Z;
  handlerId : string;
  filter : option (list FilterQuery);
  cancelKeyword : string;
  timeoutId : Z
}.

(** An entry of [session.params], written by [storeCallbackData]. *)
Record SessionParams : Type := {
  sp_hash : string;
  sp_params : string
}.

Record CallbackSessionData : Type := {
  reply : gmap string string;
  params : gmap string SessionParams;
  wait_ : option WaitState;
  lastHash : option string
}.

(** The session is the object [getSessionData(ctx)] returns: the embedding
    is of updates for which the callbacks middleware has run, so that
    [ctx._getSessionData] is set. *)

(** What a run leaves behind besides the session. *)
Inductive Effect : Type :=
| DeleteMessages (ids : list Z)
| Invoke (fn : nat) (args : list JsValue)
| ConsoleWarn.

Record World : Type := {
  session : CallbackSessionData;
  trace : list Effect;
  nextRef : nat
}.

(** A function object: its reference, [fn.name], [fn.toString()] and what a
    call [fn(ctx, ...args)] does once awaited. *)
Record Function : Type := {
  fn_ref : nat;
  fn_name : string;
  fn_source : string;
  fn_body : Context -> list JsValue -> World -> Result JsValue * World
}.

(** Module state of [callback-registry.ts]: the registry, and the [hash]
    property [cb] and [cbs] set on the function objects. *)
Record Globals : Type := {
  callbackRegistry : gmap string Function;
  fnHash : gmap nat string
}.

Record CurriedCallback : Type := {
  origin : Function;
  cc_params : option (list JsValue)
}.

Definition setSession (f : CallbackSessionData -> CallbackSessionData) (w : World) : World :=
  {| session := f (session w); trace := trace w; nextRef := nextRef w |}.

Definition emit (e : Effect) (w : World) : World :=
  {| session := session w; trace := trace w ++ [e]; nextRef := nextRef w |}.

Definition setWait (ws : option WaitState) (d : CallbackSessionData) : CallbackSessionData :=
  {| reply := reply d; params := params d; wait_ := ws; lastHash := lastHash d |}.

Definition setLastHash (h : option string) (d : CallbackSessionData) : CallbackSessionData :=
  {| reply := reply d; params := params d; wait_ := wait_ d; lastHash := h |}.

Definition setParams (k : string) (e : SessionParams) (d : CallbackSessionData)
  : CallbackSessionData :=
  {| reply := reply d; params := <[k := e]> (params d); wait_ := wait_ d;
     lastHash := lastHash d |}.

Definition setReply (k v : string) (d : CallbackSessionData) : CallbackSessionData :=
  {| reply := <[k := v]> (reply d); params := params d; wait_ := wait_ d;
     lastHash := lastHash d |}.

(** [fn(ctx, ...args)], awaited. *)
Definition invoke (fn : Function) (ctx : Context) (args : list JsValue) (w : World)
  : Result JsValue * World :=
  fn_body fn ctx args (emit (Invoke (fn_ref fn) args) w).

(** ** Hasher *)

Definition calculateFunctionHash (fn : Function) : string :=
  let fnString := fn_source fn in
  let fnHash := md5Hex fnString in
  if JsString.truthy (fn_name fn)
  then JsString.slice (fn_name fn) 0 (Some 8)
       ++ JsString.slice fnHash 0 (Some (Z.max 4 (12 - Z.of_nat (String.length (fn_name fn)))))
  else JsString.slice fnHash 12 None.

Definition calculateFunctionHashWithPath (fn : Function) (path : string) : string :=
  let name := if JsString.truthy path then path else fn_name fn in
  let hash := md5Hex name in
  if JsString.truthy name
  then JsString.slice name (-12) None
       ++ JsString.slice hash 0 (Some (Z.max 4 (16 - Z.of_nat (String.length (fn_name fn)))))
  else JsString.slice hash 0 (Some 16).

Definition generateHash (params : string) : string :=
  JsString.slice (md5Hex params) 0 (Some 8).

(** ** Curry engine and registration *)

(** [this.origin.hash] inside a template literal. *)
Definition originHash (G : Globals) (fn : Function) : option string :=
  fnHash G !! fn_ref fn.

Definition toCallbackData (G : Globals) (this : CurriedCallback) : string :=
  let hash := default "undefined" (originHash G (origin this)) in
  match cc_params this with
  | None | Some [] => "_cb:" ++ hash
  | Some ps => "_cb:" ++ hash ++ ":" ++ JSON.stringify (VArr ps)
  end.

Definition createCurried (parent : Function) (accumulatedParams : option (list JsValue))
  : CurriedCallback :=
  {| origin := parent; cc_params := accumulatedParams |}.

Inductive CurriedResult : Type :=
| Accumulated (c : CurriedCallback)
| Executed (r : Result JsValue * World).

(** A call of a curried callback. [isCtx(args[0])] holds exactly when the
    call passes a context first, here [Some ctx]. *)
Definition callCurried (G : Globals) (curried : CurriedCallback)
    (ctx : option Context) (args : list JsValue) (w : World) : CurriedResult :=
  let params := match cc_params curried with Some ps => (ps ++ args)%list | None => args end in
  match ctx with
  | Some ctx =>
      Executed (invoke (origin curried) ctx params
                  (setSession (setLastHash (originHash G (origin curried))) w))
  | None => Accumulated (createCurried (origin curried) (Some params))
  end.

Definition register (hash : string) (fn : Function) (G : Globals) : Globals :=
  {| callbackRegistry := <[hash := fn]> (callbackRegistry G);
     fnHash := <[fn_ref fn := hash]> (fnHash G) |}.

Definition cb (callback : Function) (G : Globals) : CurriedCallback * Globals :=
  let hash := calculateFunctionHash callback in
  (createCurried callback None, register hash callback G).

Local Unset Elimination Schemes.

(** The argument of [cbs]: functions at the leaves of nested objects and
    arrays; anything else is a primitive, returned as it is. *)
Inductive CallbackTree : Type :=
| TFn (f : Function)
| TObj (entries : list (string * CallbackTree))
| TArr (items : list CallbackTree)
| TPrim (v : JsValue).

Inductive CurriedTree : Type :=
| CFn (c : CurriedCallback)
| CObj (entries : list (string * CurriedTree))
| CArr (items : list CurriedTree)
| CPrim (v : JsValue).

Local Set Elimination Schemes.

(** [parentPath.replace(/^\./, '')]. *)
Definition removeLeadingDot (path : string) : string :=
  match path with
  | String c rest => if Ascii.eqb c "." then rest else path
  | EmptyString => path
  end.

Definition childPath (parentPath key : string) : string :=
  if JsString.truthy parentPath then parentPath ++ "." ++ key else key.

Definition indexKey (i : nat) : string := NilZero.string_of_uint (Nat.to_uint i).

(** The loop [for (const key of Object.keys(obj)) result[key] = walk(...)]
    over the entries of an object and over the items of an array; an error
    ends it, with the registrations made so far. *)
Definition walkEntries
    (walk : CallbackTree -> string -> Globals -> Result CurriedTree * Globals)
    (parentPath : string)
  : list (string * CallbackTree) -> Globals
    -> Result (list (string * CurriedTree)) * Globals :=
  fix each (l : list (string * CallbackTree)) (G : Globals) :=
    match l with
    | [] => (Ok [], G)
    | (key, value) :: l' =>
        match walk value (childPath parentPath key) G with
        | (Ok c, G1) =>
            match each l' G1 with
            | (Ok cs, G2) => (Ok ((key, c) :: cs), G2)
            | (Throw e, G2) => (Throw e, G2)
            end
        | (Throw e, G1) => (Throw e, G1)
        end
    end.

Definition walkItems
    (walk : CallbackTree -> string -> Globals -> Result CurriedTree * Globals)
    (parentPath : string)
  : list CallbackTree -> nat -> Globals -> Result (list CurriedTree) * Globals :=
  fix each (l : list CallbackTree) (i : nat) (G : Globals) :=
    match l with
    | [] => (Ok [], G)
    | value :: l' =>
        match walk value (childPath parentPath (indexKey i)) G with
        | (Ok c, G1) =>
            match each l' (S i) G1 with
            | (Ok cs, G2) => (Ok (c :: cs), G2)
            | (Throw e, G2) => (Throw e, G2)
            end
        | (Throw e, G1) => (Throw e, G1)
        end
    end.

Fixpoint walk (obj : CallbackTree) (parentPath : string) (G : Globals)
  : Result CurriedTree * Globals :=
  match obj with
  | TFn f =>
      let path := removeLeadingDot parentPath in
      let hash := calculateFunctionHashWithPath f path in
      match callbackRegistry G !! hash with
      | Some _ => (Throw (Error ("Callback with hash " ++ hash ++ " already registered")), G)
      | None => (Ok (CFn (createCurried f None)), register hash f G)
      end
  | TObj entries =>
      let '(r, G') := walkEntries walk parentPath entries G in
      (match r with Ok cs => Ok (CObj cs) | Throw e => Throw e end, G')
  | TArr items =>
      let '(r, G') := walkItems walk parentPath items 0%nat G in
      (match r with Ok cs => Ok (CArr cs) | Throw e => Throw e end, G')
  | TPrim v => (Ok (CPrim v), G)
  end.

Definition cbs (callbacksObj : CallbackTree) (G : Globals) : Result CurriedTree * Globals :=
  walk callbacksObj EmptyString G.

(** ** Property lookup on plain objects

    The registry, [session.params] and [session.reply] are plain objects:
    [obj[key]] finds the own property first and then the members of
    [Object.prototype]. A [gmap] holds the own properties. *)

Definition objectPrototypeKeys : list string :=
  ["constructor"; "__defineGetter__"; "__defineSetter__"; "hasOwnProperty";
   "__lookupGetter__"; "__lookupSetter__"; "isPrototypeOf"; "propertyIsEnumerable";
   "toString"; "valueOf"; "__proto__"; "toLocaleString"].

Definition inherited (key : string) : bool :=
  existsb (String.eqb key) objectPrototypeKeys.

Inductive Property (A : Type) : Type :=
| Own (a : A)
| Inherited
| Absent.
Arguments Own {A} a.
Arguments Inherited {A}.
Arguments Absent {A}.

(** [obj[key]]. *)
Definition getProperty {A : Type} (obj : gmap string A) (key : string) : Property A :=
  match obj !! key with
  | Some a => Own a
  | None => if inherited key then Inherited else Absent
  end.

(** [callback(ctx, ...)] for a member of [Object.prototype] found in the
    place of a handler, called with no receiver: [Object(ctx)] is [ctx],
    [toString] gives the tag of [undefined], [__proto__] is the prototype
    object, which is not callable, and the other methods need a receiver. *)
Definition callInherited (key : string) : Result JsValue :=
  if String.eqb key "constructor" then Ok (VHost "ctx")
  else if String.eqb key "toString" then Ok (VStr "[object Undefined]")
  else if String.eqb key "__proto__" then Throw (TypeError "callback is not a function")
  else Throw (TypeError "Cannot convert undefined or null to object").

(** ** Dispatcher ([executeCallback], [handleText], [storeCallbackData]) *)

(** [...params] on the parsed value: an array spreads into its elements, a
    string into its code units, anything else is not iterable. *)
Definition spread (v : JsValue) : Result (list JsValue) :=
  match v with
  | VArr items => Ok items
  | VStr s => Ok (map (fun c => VStr (JSON.str1 c)) (JsString.chars s))
  | _ => Throw (TypeError "Spread syntax requires ...iterable[Symbol.iterator] to be a function")
  end.

(** [paramsJson ? JSON.parse(paramsJson) : []], spread. *)
Definition parseParams (paramsJson : option string) : Result (list JsValue) :=
  match paramsJson with
  | Some json =>
      if JsString.truthy json then
        match JSON.parse json with
        | Some v => spread v
        | None => Throw (SyntaxError "Unexpected token in JSON")
        end
      else Ok []
  | None => Ok []
  end.

(** An inherited member in the place of a session entry has no [hash] and no
    [params]: the registry is then asked for the key [undefined]. An
    inherited member in the place of a handler is called once the parameters
    are parsed. *)
Definition executeCallback (G : Globals) (ctx : Context) (callbackData : string)
    (args : list JsValue) (w : World) : Result JsValue * World :=
  match splitCallbackData callbackData with
  | Throw e => (Throw e, w)
  | Ok (prefix, initialHash, initialParamsJson) =>
      let resolved : Result (string * option string) :=
        if String.eqb prefix "_ch" then
          match getProperty (params (session w)) initialHash with
          | Absent => Throw (Error ("Session callback " ++ initialHash ++ " not found"))
          | Own sessionData => Ok (sp_hash sessionData, Some (sp_params sessionData))
          | Inherited => Ok ("undefined", None)
          end
        else Ok (initialHash, initialParamsJson) in
      match resolved with
      | Throw e => (Throw e, w)
      | Ok (hash, paramsJson) =>
          match getProperty (callbackRegistry G) hash with
          | Absent => (Throw (Error ("Callback " ++ hash ++ " not found in registry")), w)
          | Own callback =>
              match parseParams paramsJson with
              | Throw e => (Throw e, w)
              | Ok ps => invoke callback ctx (ps ++ args)%list w
              end
          | Inherited =>
              match parseParams paramsJson with
              | Throw e => (Throw e, w)
              | Ok _ => (callInherited hash, w)
              end
          end
      end
  end.

(** A middleware continuation [next()]. *)
Definition Next := World -> Result unit * World.

(** For a text that names a member of [Object.prototype] and has no entry
    of its own, [reply[text]] is that member, which is truthy and has no
    [split]: [executeCallback] rejects with a [TypeError]. *)
Definition handleText (G : Globals) (ctx : Context) (next : Next) (w : World)
  : Result unit * World :=
  match message_text ctx with
  | None => next w
  | Some text =>
      if negb (JsString.truthy text) then next w
      else
        match getProperty (reply (session w)) text with
        | Own callbackData =>
            if JsString.truthy callbackData then
              match executeCallback G ctx callbackData [] w with
              | (Ok executed, w') => if negb (isFalse executed) then (Ok tt, w') else next w'
              | (Throw e, w') => (Throw e, w')
              end
            else next w
        | Inherited => (Throw (TypeError "callbackData.split is not a function"), w)
        | Absent => next w
        end
  end.

Definition storeCallbackData (cbData : string) (w : World) : Result string * World :=
  match splitCallbackData cbData with
  | Throw e => (Throw e, w)
  | Ok (_, hash, paramsJson) =>
      match paramsJson with
      | None => (Ok cbData, w)
      | Some paramsJson =>
          let sessionHash := generateHash paramsJson in
          (Ok ("_ch:" ++ sessionHash),
           setSession (setParams sessionHash {| sp_hash := hash; sp_params := paramsJson |}) w)
      end
  end.

(** ** Middleware ([callbacks-middleware.ts]) *)

Definition initialCallbackData : CallbackSessionData :=
  {| reply := ∅; params := ∅; wait_ := None; lastHash := None |}.

Definition isCallbackData (data : option string) : bool :=
  match data with
  | Some data => JsString.startsWith "_cb:" data || JsString.startsWith "_ch:" data
  | None => false
  end.

(** The [bot.on('callback_query', ...)] handler of [setupCallbacks]. *)
Definition onCallbackQuery (G : Globals) (ctx : Context) (next : Next) (w : World)
  : Result unit * World :=
  let callbackData := callbackQuery_data ctx in
  if isCallbackData callbackData then
    match executeCallback G ctx (default EmptyString callbackData) [] w with
    | (Ok v, w') => if truthy v then (Ok tt, w') else next w'
    | (Throw e, w') => (Throw e, w')
    end
  else next w.

(** A button of a reply keyboard in an outgoing payload: [Button.cb] puts the
    token in [callback_data] and in [_callback_data]. *)
Record KeyboardButton : Type := {
  kb_text : string;
  kb__callback_data : option string;
  kb_callback_data : option string
}.

(** [a || b] on optional strings. *)
Definition orElse (a b : option string) : option string :=
  match a with
  | Some s => if JsString.truthy s then a else b
  | None => b
  end.

(** [reply[text] = data]: an own property is created or updated, except that
    for the text [__proto__] with no own property the assignment reaches the
    setter of [Object.prototype], which ignores a string. *)
Definition assignReply (text data : string) (d : CallbackSessionData) : CallbackSessionData :=
  match reply d !! text with
  | None => if String.eqb text "__proto__" then d else setReply text data d
  | Some _ => setReply text data d
  end.

(** What the [bot.api.config.use] transformer of [setupCallbacks] writes to
    the session for a payload with a reply keyboard:
    [buttons.forEach(button => { if (data) reply[button.text] = data })]. *)
Definition recordReplyButton (d : CallbackSessionData) (button : KeyboardButton)
  : CallbackSessionData :=
  match orElse (kb__callback_data button) (kb_callback_data button) with
  | Some data => if JsString.truthy data then assignReply (kb_text button) data d else d
  | None => d
  end.

Definition recordReplyKeyboard (keyboard : list (list KeyboardButton))
    (d : CallbackSessionData) : CallbackSessionData :=
  fold_left recordReplyButton (concat keyboard) d.

(** ** Wait protocol ([wait.ts]) *)

Record WaitOptions : Type := {
  opt_filter : option (list FilterQuery);
  opt_messageId : option Z;
  opt_cancelKeyword : option string;
  opt_timeoutMs : option Z
}.

(** The first argument of [wait]: one filter query, several, or the handler. *)
Inductive WaitFilter : Type :=
| FilterOne (q : FilterQuery)
| FilterMany (qs : list FilterQuery)
| FilterCallback (c : CurriedCallback).

Inductive HandlerOrOptions : Type :=
| IsHandler (c : CurriedCallback)
| IsOptions (o : WaitOptions).

Definition clearWaitState (w : World) : World :=
  let sessionData := session w in
  let w1 :=
    match wait_ sessionData with
    | Some ws => if negb (messageId ws =? 0) then emit (DeleteMessages [messageId ws]) w else w
    | None => w
    end in
  setSession (setWait None) w1.

(** [waitOptions?.messageId || 0]. *)
Definition optMessageId (o : option WaitOptions) : Z :=
  match o with
  | Some o => default 0 (opt_messageId o)
  | None => 0
  end.

(** [waitOptions?.cancelKeyword || fallback]. *)
Definition optCancelKeyword (fallback : string) (o : option WaitOptions) : string :=
  match o with
  | Some o =>
      match opt_cancelKeyword o with
      | Some k => if JsString.truthy k then k else fallback
      | None => fallback
      end
  | None => fallback
  end.

(** A curried callback read as options has none of the option fields. *)
Definition asOptions (h : option HandlerOrOptions) : option WaitOptions :=
  match h with
  | Some (IsOptions o) => Some o
  | Some (IsHandler _) =>
      Some {| opt_filter := None; opt_messageId := None;
              opt_cancelKeyword := None; opt_timeoutMs := None |}
  | None => None
  end.

Definition storeWait (ws : nat -> WaitState) (w : World) : World :=
  {| session := setWait (Some (ws (nextRef w))) (session w);
     trace := trace w;
     nextRef := S (nextRef w) |}.

Definition wait (G : Globals) (filter : WaitFilter)
    (handlerOrOptions : option HandlerOrOptions) (waitOptions : option WaitOptions)
    (w : World) : Result unit * World :=
  let w1 := clearWaitState w in
  let '(handler, waitOptions, filter) :=
    match filter with
    | FilterCallback c => (Some (IsHandler c), asOptions handlerOrOptions, ["message:text"])
    | FilterOne q => (handlerOrOptions, waitOptions, [q])
    | FilterMany qs => (handlerOrOptions, waitOptions, qs)
    end in
  match handler with
  | Some (IsHandler handler) =>
      (Ok tt,
       storeWait (fun r =>
         {| ws_ref := r;
            messageId := optMessageId waitOptions;
            cancelKeyword := JsString.toLowerCase (optCancelKeyword "/cancelwait" waitOptions);
            filter := Some filter;
            handlerId := toCallbackData G handler;
            timeoutId := 0 |}) w1)
  | Some (IsOptions _) => (Throw (TypeError "handler.toCallbackData is not a function"), w1)
  | None =>
      (Throw (TypeError "Cannot read properties of undefined (reading 'toCallbackData')"), w1)
  end.

(** The text of the update: of the message, else of the pressed button. *)
Definition updateText (ctx : Context) : option string :=
  if has ctx ["message:text"] then message_text ctx
  else if has ctx ["callback_query:data"] then callbackQuery_data ctx
  else None.

Definition textArg (text : option string) : JsValue :=
  match text with Some t => VStr t | None => VUndefined end.

(** [getSessionData(ctx).wait === waitState]. *)
Definition sameWait (current : option WaitState) (waitState : WaitState) : bool :=
  match current with
  | Some ws => (ws_ref ws =? ws_ref waitState)%nat
  | None => false
  end.

Definition isCancel (text : option string) (keyword : string) : bool :=
  match text with
  | Some t => JsString.truthy t && String.eqb (JsString.toLowerCase t) keyword
  | None => false
  end.

(** [waitState.filter && !ctx.has(waitState.filter)]: the host builds no
    filter from an empty list of queries and raises. *)
Definition filterMiss (ctx : Context) (f : option (list FilterQuery)) : Result bool :=
  match f with
  | Some [] => Throw (Error "Cannot create filter function for empty query")
  | Some f => Ok (negb (has ctx f))
  | None => Ok false
  end.

(** [err.stack] in the [.catch] callback, read before the warning is
    logged: it raises when the rejection is [null] or [undefined]. *)
Definition errStack (e : JsError) : Result unit :=
  match e with
  | ThrownNull => Throw (TypeError "Cannot read properties of null (reading 'stack')")
  | ThrownUndefined =>
      Throw (TypeError "Cannot read properties of undefined (reading 'stack')")
  | _ => Ok tt
  end.

(** The awaited handler call of [handleWaitResponse] with its [.catch]: the
    flag tells whether it resolved to [false]. *)
Definition runWaitHandler (G : Globals) (ctx : Context) (waitState : WaitState)
    (text : option string) (w : World) : Result bool * World :=
  if JsString.truthy (handlerId waitState) then
    match executeCallback G ctx (handlerId waitState) [textArg text] w with
    | (Ok v, w') => (Ok (isFalse v), w')
    | (Throw e, w') =>
        match errStack e with
        | Ok _ => (Ok false, emit ConsoleWarn w')
        | Throw e' => (Throw e', w')
        end
    end
  else (Ok false, w).

Definition handleWaitResponse (G : Globals) (ctx : Context) (w : World)
  : Result bool * World :=
  match wait_ (session w) with
  | None => (Ok false, w)
  | Some waitState =>
      let text := updateText ctx in
      if isCancel text (cancelKeyword waitState) then (Ok true, clearWaitState w)
      else
        match filterMiss ctx (filter waitState) with
        | Throw e => (Throw e, w)
        | Ok true => (Ok false, w)
        | Ok false =>
            match runWaitHandler G ctx waitState text w with
            | (Throw e, w1) => (Throw e, w1)
            | (Ok keep, w1) =>
                if keep then (Ok true, w1)
                else if sameWait (wait_ (session w1)) waitState
                     then (Ok true, clearWaitState w1)
                     else (Ok true, w1)
            end
        end
  end.


(** ** The earlier revision of [wait.ts]

    It keeps the cancel keyword as given, with [/cancel] when none is given,
    and lowers it when it compares. *)

Module Earlier.

Definition wait (G : Globals) (filter : WaitFilter)
    (handlerOrOptions : option HandlerOrOptions) (waitOptions : option WaitOptions)
    (w : World) : Result unit * World :=
  let w1 := clearWaitState w in
  let '(handler, waitOptions, filter) :=
    match filter with
    | FilterCallback c => (Some (IsHandler c), asOptions handlerOrOptions, ["message:text"])
    | FilterOne q => (handlerOrOptions, waitOptions, [q])
    | FilterMany qs => (handlerOrOptions, waitOptions, qs)
    end in
  match handler with
  | Some (IsHandler handler) =>
      (Ok tt,
       storeWait (fun r =>
         {| ws_ref := r;
            messageId := optMessageId waitOptions;
            cancelKeyword := optCancelKeyword "/cancel" waitOptions;
            filter := Some filter;
            handlerId := toCallbackData G handler;
            timeoutId := 0 |}) w1)
  | Some (IsOptions _) => (Throw (TypeError "handler.toCallbackData is not a function"), w1)
  | None =>
      (Throw (TypeError "Cannot read properties of undefined (reading 'toCallbackData')"), w1)
  end.

Definition isCancel (text : option string) (keyword : string) : bool :=
  JsString.truthy keyword
  && match text with
     | Some t =>
         JsString.truthy t
         && String.eqb (JsString.toLowerCase t) (JsString.toLowerCase keyword)
     | None => false
     end.

Definition handleWaitResponse (G : Globals) (ctx : Context) (w : World)
  : Result bool * World :=
  match wait_ (session w) with
  | None => (Ok false, w)
  | Some promptState =>
      let text := updateText ctx in
      if isCancel text (cancelKeyword promptState) then (Ok true, clearWaitState w)
      else
        match filterMiss ctx (filter promptState) with
        | Throw e => (Throw e, w)
        | Ok true => (Ok false, w)
        | Ok false =>
            match runWaitHandler G ctx promptState text w with
            | (Throw e, w1) => (Throw e, w1)
            | (Ok keep, w1) =>
                if keep then (Ok true, w1)
                else if sameWait (wait_ (session w1)) promptState
                     then (Ok true, clearWaitState w1)
                     else (Ok true, w1)
            end
        end
  end.

End Earlier.

(** ** Notions the properties are stated with *)

(** *** Tokens and identifiers *)

(** The text of a token before its first colon. *)
Fixpoint beforeColon (s : string) : string :=
  match s with
  | EmptyString => EmptyString
  | String c s' => if Ascii.eqb c colon then EmptyString else String c (beforeColon s')
  end.

(** The shape [splitCallbackData] asks of a prefix: three characters, the
    first an underscore. *)
Definition prefixShape (p : string) : Prop :=
  String.length p = 3%nat /\ exists t, p = String "_" t.

(** The characters of a string all satisfy [P]. *)
Definition allChars (P : ascii -> bool) (s : string) : bool :=
  forallb P (JsString.chars s).

Definition noColon (s : string) : bool :=
  allChars (fun c => negb (Ascii.eqb c colon)) s.

Definition isLowerHex (c : ascii) : bool :=
  let n := nat_of_ascii c in
  (((48 <=? n) && (n <=? 57)) || ((97 <=? n) && (n <=? 102)))%nat.

Definition isAlnum (c : ascii) : bool :=
  let n := nat_of_ascii c in
  (((48 <=? n) && (n <=? 57)) || ((65 <=? n) && (n <=? 90))
   || ((97 <=? n) && (n <=? 122)))%nat.

(** The identifier of the wire grammar, [[A-Za-z0-9]{8,16}]. *)
Definition wireIdentifier (id : string) : Prop :=
  allChars isAlnum id = true /\ (8 <= String.length id <= 16)%nat.

(** *** JSON texts *)

(** What may follow a number in a text: anything but a sign or a digit. *)
Definition delimited (rest : string) : bool :=
  match rest with
  | EmptyString => true
  | String c _ => negb (JSON.isNumberChar c)
  end.

(** The text of an object member. *)
Definition member (kv : string * JsValue) : string :=
  JSON.quote (fst kv) ++ ":" ++ JSON.stringify (snd kv).

(** With fuel for its text, the parser reads a value back and leaves what
    follows it. *)
Definition parses (v : JsValue) : Prop :=
  forall (fuel : nat) (rest : string),
    (String.length (JSON.stringify v) <= fuel)%nat -> delimited rest = true ->
    JSON.parseValue fuel (JSON.stringify v ++ rest) = Some (v, rest).

(** *** Registration *)

(** [h] is registered under [id]: its [hash] property is [id] and the
    registry binds [id] to it. *)
Definition bound (G : Globals) (h : Function) (id : string) : Prop :=
  fnHash G !! fn_ref h = Some id /\ callbackRegistry G !! id = Some h.

(** The module state before any registration. *)
Definition noGlobals : Globals := {| callbackRegistry := ∅; fnHash := ∅ |}.

(** The first function of a tree in the order [cbs] walks it, with the path
    it is reached by. *)
Definition firstOfEntries (firstLeaf : CallbackTree -> string -> option (Function * string))
    (parentPath : string) : list (string * CallbackTree) -> option (Function * string) :=
  fix each (l : list (string * CallbackTree)) :=
    match l with
    | [] => None
    | (key, value) :: l' =>
        match firstLeaf value (childPath parentPath key) with
        | Some x => Some x
        | None => each l'
        end
    end.

Definition firstOfItems (firstLeaf : CallbackTree -> string -> option (Function * string))
    (parentPath : string) : list CallbackTree -> nat -> option (Function * string) :=
  fix each (l : list CallbackTree) (i : nat) :=
    match l with
    | [] => None
    | value :: l' =>
        match firstLeaf value (childPath parentPath (indexKey i)) with
        | Some x => Some x
        | None => each l' (S i)
        end
    end.

Fixpoint firstLeaf (t : CallbackTree) (parentPath : string) : option (Function * string) :=
  match t with
  | TFn f => Some (f, parentPath)
  | TObj entries => firstOfEntries firstLeaf parentPath entries
  | TArr items => firstOfItems firstLeaf parentPath items 0%nat
  | TPrim _ => None
  end.

(** The identifier [cbs] gives a function reached by a path. *)
Definition hashAt (leaf : Function * string) : string :=
  calculateFunctionHashWithPath (fst leaf) (removeLeadingDot (snd leaf)).

Definition alreadyRegistered (hash : string) : JsError :=
  Error ("Callback with hash " ++ hash ++ " already registered").

(** *** Sessions and waits *)

(** Every token of the reply table is a non-empty string. *)
Definition replyTokensTruthy (d : CallbackSessionData) : Prop :=
  forall text data, reply d !! text = Some data -> JsString.truthy data = true.

(** The handler and the options a call of [wait] passes, in either of its
    two forms. *)
Definition waitHandler (filter : WaitFilter) (handlerOrOptions : option HandlerOrOptions)
  : option CurriedCallback :=
  match filter, handlerOrOptions with
  | FilterCallback c, _ => Some c
  | _, Some (IsHandler c) => Some c
  | _, _ => None
  end.

Definition waitOptionsOf (filter : WaitFilter) (handlerOrOptions : option HandlerOrOptions)
    (waitOptions : option WaitOptions) : option WaitOptions :=
  match filter with
  | FilterCallback _ => asOptions handlerOrOptions
  | _ => waitOptions
  end.


(** What [clearWaitState] asks of the host for a state. *)
Definition anchorDeletion (ws : option WaitState) : list Effect :=
  match ws with
  | Some ws => if messageId ws =? 0 then [] else [DeleteMessages [messageId ws]]
  | None => []
  end.

(** The reference of the state in the session was allocated before. *)
Definition refsFresh (w : World) : Prop :=
  forall ws, wait_ (session w) = Some ws -> (ws_ref ws < nextRef w)%nat.

(** Calls of [wait] one after the other; the first that raises ends them. *)
Definition WaitCall : Type :=
  WaitFilter * option HandlerOrOptions * option WaitOptions.

Fixpoint waitAll (G : Globals) (calls : list WaitCall) (w : World) : Result unit * World :=
  match calls with
  | [] => (Ok tt, w)
  | (filter, handlerOrOptions, waitOptions) :: calls' =>
      match wait G filter handlerOrOptions waitOptions w with
      | (Ok _, w') => waitAll G calls' w'
      | (Throw e, w') => (Throw e, w')
      end
  end.

(** ** Handlers, updates and worlds of the examples *)

(** A fresh session in a world where nothing happened yet. *)
Definition initialWorld : World :=
  {| session := initialCallbackData; trace := []; nextRef := 0 |}.

(** A context for an incoming text message. *)
Definition textUpdate (text : string) : Context :=
  {| message_text := Some text; callbackQuery_data := None;
     has := fun qs => bool_decide ("message:text" ∈ qs) |}.

(** A context for a pressed inline button. *)
Definition buttonUpdate (data : string) : Context :=
  {| message_text := None; callbackQuery_data := Some data;
     has := fun qs => bool_decide ("callback_query:data" ∈ qs) |}.

(** Normal update handling, which leaves a warning in the trace. *)
Definition fallThrough : Next := fun w => (Ok tt, emit ConsoleWarn w).

(** A handler that does nothing and resolves to [undefined]. *)
Definition idle (ref : nat) (name source : string) : Function :=
  {| fn_ref := ref; fn_name := name; fn_source := source;
     fn_body := fun _ _ w => (Ok VUndefined, w) |}.

Definition greet : Function :=
  idle 1 "greet" "async function greet(ctx, name, age) {}".


Definition editUser : Function :=
  idle 3 "editUser" "async function editUser(ctx, user) {}".

Definition deleteUser : Function :=
  idle 4 "deleteUser" "async function deleteUser(ctx, user) {}".

(** A handler that resolves to [false]: keep waiting. *)
Definition retry : Function :=
  {| fn_ref := 5; fn_name := "retry";
     fn_source := "async function retry(ctx, text) { return false }";
     fn_body := fun _ _ w => (Ok (VBool false), w) |}.

(** A handler that raises. *)
Definition failing : Function :=
  {| fn_ref := 6; fn_name := "failing";
     fn_source := "async function failing(ctx, text) { throw new Error('no') }";
     fn_body := fun _ _ w => (Throw (Error "no"), w) |}.

Definition waitGlobals : Globals :=
  snd (cb failing (snd (cb retry (snd (cb greet noGlobals))))).

(** A handler that pauses again, for [greet]. *)
Definition askAgain : Function :=
  {| fn_ref := 7; fn_name := "askAgain";
     fn_source := "async function askAgain(ctx, text) { wait(ctx, greet) }";
     fn_body := fun _ _ w =>
       (Ok VUndefined,
        snd (wait waitGlobals (FilterCallback (createCurried greet None)) None None w)) |}.

Definition pauseGlobals : Globals := snd (cb askAgain waitGlobals).

Definition anchored (id : Z) : WaitOptions :=
  {| opt_filter := None; opt_messageId := Some id;
     opt_cancelKeyword := None; opt_timeoutMs := None |}.

Definition cancelledBy (keyword : string) : WaitOptions :=
  {| opt_filter := None; opt_messageId := None;
     opt_cancelKeyword := Some keyword; opt_timeoutMs := None |}.

(** The world after [wait(ctx, h, options)] in a fresh session. *)
Definition pausedFor (h : Function) (options : option WaitOptions) : World :=
  snd (wait pauseGlobals (FilterCallback (createCurried h None))
         (option_map IsOptions options) None initialWorld).

(** Two closures of one source text: same name, same [toString()], two
    function objects. *)
Definition sayYes : Function :=
  {| fn_ref := 8; fn_name := "answer";
     fn_source := "async function answer(ctx) { return word }";
     fn_body := fun _ _ w => (Ok (VStr "yes"), w) |}.

Definition sayNo : Function :=
  {| fn_ref := 9; fn_name := "answer";
     fn_source := "async function answer(ctx) { return word }";
     fn_body := fun _ _ w => (Ok (VStr "no"), w) |}.

(** The tree [{ shop: { open: greet, close: retry } }]. *)
Definition shop : CallbackTree :=
  TObj [("shop", TObj [("open", TFn greet); ("close", TFn retry)])].

(** ** Further code of the sources *)

(** [Button.cb(text, callback)] ([callback-registry.ts]): the token goes in
    [callback_data] and in [_callback_data]. *)
Definition Button_cb (G : Globals) (text : string) (callback : CurriedCallback)
  : KeyboardButton :=
  let data := toCallbackData G callback in
  {| kb_text := text; kb__callback_data := Some data; kb_callback_data := Some data |}.

(** [delete button._callback_data; delete button.callback_data], done for
    the buttons whose token was recorded. *)
Definition stripButton (button : KeyboardButton) : KeyboardButton :=
  match orElse (kb__callback_data button) (kb_callback_data button) with
  | Some data =>
      if JsString.truthy data
      then {| kb_text := kb_text button; kb__callback_data := None; kb_callback_data := None |}
      else button
  | None => button
  end.

(** The [bot.api.config.use] transformer of [setupCallbacks] on an outgoing
    payload: [keyboard] is [payload.reply_markup?.keyboard] and [cached]
    tells whether [contextCache] holds a context for [payload.chat_id]. It
    returns the keyboard as the payload then carries it. *)
Definition replyKeyboardHook (cached : bool) (keyboard : option (list (list KeyboardButton)))
    (w : World) : option (list (list KeyboardButton)) * World :=
  match keyboard with
  | None => (None, w)
  | Some rows =>
      if cached
      then (Some (map (map stripButton) rows), setSession (recordReplyKeyboard rows) w)
      else (Some rows, emit ConsoleWarn w)
  end.

(** [defaultGetSessionData] ([callbacks-middleware.ts]): [fromId] is
    [ctx.from?.id], [ctxSession] is [ctx.session]; the module's
    [sessionCache] is passed and returned. *)
Definition defaultGetSessionData (fromId : option Z) (ctxSession : option CallbackSessionData)
    (sessionCache : gmap Z CallbackSessionData)
  : Result (CallbackSessionData * gmap Z CallbackSessionData) :=
  let noId :=
    Throw (Error "Cannot get session data from context without fromId, dont use it there") in
  match fromId with
  | None => noId
  | Some id =>
      if id =? 0 then noId
      else match ctxSession with
           | Some s => Ok (s, sessionCache)
           | None =>
               match sessionCache !! id with
               | Some s => Ok (s, sessionCache)
               | None => Ok (initialCallbackData, <[id := initialCallbackData]> sessionCache)
               end
           end
  end.

(** *** Notions for the registration of trees *)

(** The functions of a tree with their paths, in the order [cbs] reaches
    them. *)
Definition leavesOfEntries (leaves : CallbackTree -> string -> list (Function * string))
    (parentPath : string) : list (string * CallbackTree) -> list (Function * string) :=
  fix each (l : list (string * CallbackTree)) :=
    match l with
    | [] => []
    | (key, value) :: l' => (leaves value (childPath parentPath key) ++ each l')%list
    end.

Definition leavesOfItems (leaves : CallbackTree -> string -> list (Function * string))
    (parentPath : string) : list CallbackTree -> nat -> list (Function * string) :=
  fix each (l : list CallbackTree) (i : nat) :=
    match l with
    | [] => []
    | value :: l' =>
        (leaves value (childPath parentPath (indexKey i)) ++ each l' (S i))%list
    end.

Fixpoint leaves (t : CallbackTree) (parentPath : string) : list (Function * string) :=
  match t with
  | TFn f => [(f, parentPath)]
  | TObj entries => leavesOfEntries leaves parentPath entries
  | TArr items => leavesOfItems leaves parentPath items 0%nat
  | TPrim _ => []
  end.

(** Registering functions one after the other as [walk] does at a leaf: the
    first identifier that is bound ends it. *)
Fixpoint registerLeaves (l : list (Function * string)) (G : Globals)
  : option JsError * Globals :=
  match l with
  | [] => (None, G)
  | leaf :: l' =>
      match callbackRegistry G !! hashAt leaf with
      | Some _ => (Some (alreadyRegistered (hashAt leaf)), G)
      | None => registerLeaves l' (register (hashAt leaf) (fst leaf) G)
      end
  end.

Definition errorOf {A : Type} (r : Result A) : option JsError :=
  match r with Ok _ => None | Throw e => Some e end.

(** The tree [cbs] returns: each function replaced by its curried callback
    with no arguments yet. *)
Definition curriedEntries (curriedOf : CallbackTree -> CurriedTree)
  : list (string * CallbackTree) -> list (string * CurriedTree) :=
  fix each (l : list (string * CallbackTree)) :=
    match l with
    | [] => []
    | (key, value) :: l' => (key, curriedOf value) :: each l'
    end.

Fixpoint curriedOf (t : CallbackTree) : CurriedTree :=
  match t with
  | TFn f => CFn (createCurried f None)
  | TObj entries => CObj (curriedEntries curriedOf entries)
  | TArr items => CArr (map curriedOf items)
  | TPrim v => CPrim v
  end.

(** *** Notions for the resolution of a wait *)




(** * Properties *)

(** ** Strings *)

Section StringFacts.

Lemma append_length (a b : string) :
  String.length (a ++ b) = (String.length a + String.length b)%nat.
Proof. induction a as [|c a IH]; simpl; [reflexivity | now rewrite IH]. Qed.

Lemma append_assoc (a b c : string) : (a ++ b) ++ c = a ++ (b ++ c).
Proof. induction a as [|x a IH]; simpl; [reflexivity | now rewrite IH]. Qed.

Lemma append_empty_r (a : string) : a ++ EmptyString = a.
Proof. induction a as [|x a IH]; simpl; [reflexivity | now rewrite IH]. Qed.

Lemma substring_all (s : string) : String.substring 0 (String.length s) s = s.
Proof. induction s as [|c s IH]; simpl; [reflexivity | now rewrite IH]. Qed.

Lemma substring_skip (a b : string) (n : nat) :
  String.substring (String.length a) n (a ++ b) = String.substring 0 n b.
Proof. induction a as [|c a IH]; simpl; [reflexivity | exact IH]. Qed.

Lemma substring_prefix (a b : string) :
  String.substring 0 (String.length a) (a ++ b) = a.
Proof.
  induction a as [|c a IH]; simpl.
  - destruct b; reflexivity.
  - now rewrite IH.
Qed.

Lemma substring_past (s : string) (n m : nat) :
  (String.length s <= n)%nat -> String.substring n m s = EmptyString.
Proof.
  revert n; induction s as [|c s IH]; intros n Hn; simpl.
  - destruct n, m; reflexivity.
  - destruct n as [|n]; simpl in Hn; [lia |]. apply IH. lia.
Qed.

(** [s.slice(n)] drops the first [n] code units. *)
Lemma slice_from_append (a b : string) :
  JsString.slice (a ++ b) (Z.of_nat (String.length a)) None = b.
Proof.
  unfold JsString.slice, JsString.clampIndex.
  rewrite append_length.
  destruct (Z.ltb_spec (Z.of_nat (String.length a)) 0) as [H|_]; [lia |].
  rewrite Z.min_l by lia.
  rewrite Nat2Z.id, Z.max_l by lia.
  replace (Z.to_nat _) with (String.length b) by lia.
  rewrite substring_skip. apply substring_all.
Qed.

Lemma slice_from_end (s : string) (n : Z) :
  Z.of_nat (String.length s) <= n -> JsString.slice s n None = EmptyString.
Proof.
  intros Hn. unfold JsString.slice, JsString.clampIndex.
  destruct (Z.ltb_spec n 0) as [H|_]; [lia |].
  rewrite Z.min_r by lia. apply substring_past. lia.
Qed.

(** [s.slice(0, n)] keeps the first [n] code units. *)
Lemma slice_to_length (s : string) (n : Z) :
  0 <= n ->
  String.length (JsString.slice s 0 (Some n)) = Nat.min (Z.to_nat n) (String.length s).
Proof.
  intros Hn. unfold JsString.slice, JsString.clampIndex. simpl.
  destruct (Z.ltb_spec n 0) as [H|_]; [lia |].
  rewrite Z.min_l by lia. simpl.
  rewrite Z.sub_0_r.
  assert (Hlen : forall (t : string) (k : nat), (k <= String.length t)%nat ->
            String.length (String.substring 0 k t) = k).
  { induction t as [|c t IH]; intros [|k] Hk; simpl in *; try reflexivity; try lia.
    rewrite IH; [reflexivity | lia]. }
  rewrite Hlen by lia. lia.
Qed.

End StringFacts.

(** ** Token codec *)

Section Split.

Lemma split_nonempty (sep : ascii) (s : string) : JsString.split sep s <> [].
Proof.
  induction s as [|c s IH]; simpl; [discriminate |].
  destruct (Ascii.eqb c sep); [discriminate |].
  destruct (JsString.split sep s); [contradiction | discriminate].
Qed.

(** The first piece of the split is the text before the first colon. *)
Lemma split_head (s : string) :
  JsString.split colon s !! 0%nat = Some (beforeColon s).
Proof.
  induction s as [|c s IH]; simpl; [reflexivity |].
  destruct (Ascii.eqb c colon); [reflexivity |].
  destruct (JsString.split colon s) as [|p ps]; simpl in *; [discriminate |].
  now inversion IH.
Qed.

Lemma split_no_colon (s : string) :
  noColon s = true -> JsString.split colon s = [s].
Proof.
  unfold noColon, allChars.
  induction s as [|c s IH]; simpl; [reflexivity |].
  intros H. apply andb_prop in H as [Hc Hs].
  apply negb_true_iff in Hc. rewrite Hc, (IH Hs). reflexivity.
Qed.

Lemma split_at_colon (a b : string) :
  noColon a = true ->
  JsString.split colon (a ++ String colon b) = a :: JsString.split colon b.
Proof.
  unfold noColon, allChars.
  induction a as [|c a IH]; simpl; intros H.
  - reflexivity.
  - apply andb_prop in H as [Hc Hs].
    apply negb_true_iff in Hc. rewrite Hc, (IH Hs). reflexivity.
Qed.

Lemma beforeColon_no_colon (s : string) : noColon (beforeColon s) = true.
Proof.
  unfold noColon, allChars.
  induction s as [|c s IH]; simpl; [reflexivity |].
  destruct (Ascii.eqb c colon) eqn:E; simpl; [reflexivity |].
  now rewrite E, IH.
Qed.

(** The guard of [splitCallbackData] is the shape test on the prefix. *)
Lemma prefix_guard (p : string) :
  negb (JsString.truthy p)
  || negb (String.length p =? 3)%nat
  || negb (bool_decide (JsString.charAt0 p = Some "_"%char)) = false
  <-> prefixShape p.
Proof.
  unfold prefixShape. split.
  - intros H. apply orb_false_elim in H as [H H3].
    apply orb_false_elim in H as [_ H2].
    apply negb_false_iff in H2, H3.
    apply Nat.eqb_eq in H2. apply bool_decide_eq_true in H3.
    split; [exact H2 |].
    destruct p as [|c t]; simpl in H3; [discriminate |].
    inversion H3. now exists t.
  - intros [Hlen [t ->]]. simpl in *.
    apply Nat.eqb_eq in Hlen. simpl in Hlen. rewrite Hlen. reflexivity.
Qed.

Lemma split_second (s : string) :
  JsString.split colon s !! 1%nat = None <-> noColon s = true.
Proof.
  unfold noColon, allChars.
  induction s as [|c s IH]; simpl; [tauto |].
  destruct (Ascii.eqb c colon); simpl.
  - pose proof (split_nonempty colon s) as Hne.
    destruct (JsString.split colon s); [contradiction |]. simpl. split; discriminate.
  - pose proof (split_nonempty colon s) as Hne.
    destruct (JsString.split colon s) as [|p ps]; [contradiction |]. simpl in *. exact IH.
Qed.

Lemma beforeColon_whole (s : string) : noColon s = true -> beforeColon s = s.
Proof.
  unfold noColon, allChars.
  induction s as [|c s IH]; simpl; [reflexivity |].
  intros H. apply andb_prop in H as [Hc Hs]. apply negb_true_iff in Hc.
  now rewrite Hc, IH.
Qed.

End Split.

(** C8, as the code has it. Whatever the string, when the text before its
    first colon is not three characters beginning with an underscore,
    [splitCallbackData] returns the empty triple ['', '', undefined]; it does
    not raise. *)
Theorem splitCallbackData_malformed_prefix (callbackData : string) :
  ~ prefixShape (beforeColon callbackData) ->
  splitCallbackData callbackData = Ok (EmptyString, EmptyString, None).
Proof.
  intros Hshape. unfold splitCallbackData, JsString.splitLimit.
  assert (Hhead : take 2 (JsString.split colon callbackData) !! 0%nat
                  = Some (beforeColon callbackData)).
  { rewrite lookup_take_lt by lia. apply split_head. }
  rewrite Hhead. simpl.
  destruct (negb (JsString.truthy (beforeColon callbackData))
            || negb (String.length (beforeColon callbackData) =? 3)%nat
            || negb (bool_decide (JsString.charAt0 (beforeColon callbackData)
                                  = Some "_"%char))) eqn:G.
  - reflexivity.
  - exfalso. apply Hshape. now apply prefix_guard.
Qed.

Lemma splitCallbackData_malformed_prefix_witness :
  splitCallbackData "hello:world" = Ok (EmptyString, EmptyString, None).
Proof.
  apply splitCallbackData_malformed_prefix.
  intros [Hlen _]. vm_compute in Hlen. discriminate.
Defined.

(** The inputs on which the function raises are the well-shaped prefixes
    with no colon after them, such as [_cb]: [hash] is [undefined] there. *)
Lemma splitCallbackData_raises (callbackData : string) :
  (exists e, splitCallbackData callbackData = Throw e)
  <-> prefixShape callbackData /\ noColon callbackData = true.
Proof.
  unfold splitCallbackData, JsString.splitLimit.
  assert (Hhead : take 2 (JsString.split colon callbackData) !! 0%nat
                  = Some (beforeColon callbackData)).
  { rewrite lookup_take_lt by lia. apply split_head. }
  assert (Hsecond : take 2 (JsString.split colon callbackData) !! 1%nat
                    = JsString.split colon callbackData !! 1%nat).
  { now rewrite lookup_take_lt by lia. }
  rewrite Hhead, Hsecond. simpl default.
  destruct (negb (JsString.truthy (beforeColon callbackData))
            || negb (String.length (beforeColon callbackData) =? 3)%nat
            || negb (bool_decide (JsString.charAt0 (beforeColon callbackData)
                                  = Some "_"%char))) eqn:G.
  - split; [intros [e He]; discriminate |].
    intros [Hshape Hcolon]. rewrite (beforeColon_whole _ Hcolon) in G.
    apply prefix_guard in Hshape. congruence.
  - apply prefix_guard in G.
    destruct (JsString.split colon callbackData !! 1%nat) as [hash|] eqn:E.
    + split; [intros [e He]; discriminate |].
      intros [_ Hcolon]. apply split_second in Hcolon. congruence.
    + apply split_second in E. rewrite (beforeColon_whole _ E) in G.
      split; [tauto | eauto].
Qed.

(** C8 as stated fails: [splitCallbackData] is not total, it raises on the
    bare prefix [_cb]; and the shape it asks for is wider than the two
    prefixes of tokens: [_xy:abc] is split like a token. *)
Lemma splitCallbackData_not_total :
  splitCallbackData "_cb"
  = Throw (TypeError "Cannot read properties of undefined (reading 'length')")
  /\ splitCallbackData "_ch"
     = Throw (TypeError "Cannot read properties of undefined (reading 'length')")
  /\ splitCallbackData "_xy:abc" = Ok ("_xy", "abc", None)
  /\ splitCallbackData "_xy:abc" <> Ok (EmptyString, EmptyString, None).
Proof. repeat split; try reflexivity. discriminate. Qed.

Example splitCallbackData_bare_prefix :
  splitCallbackData "_cb"
  = Throw (TypeError "Cannot read properties of undefined (reading 'length')").
Proof. reflexivity. Qed.

Section SplitTokens.

Variables (prefix key : string).
Hypothesis Hprefix : prefixShape prefix.
Hypothesis Hprefix_colon : noColon prefix = true.
Hypothesis Hkey : noColon key = true.

(** A token [prefix:key] splits into its two parts, without arguments. *)
Lemma splitCallbackData_two_parts :
  splitCallbackData (prefix ++ String colon key) = Ok (prefix, key, None).
Proof.
  unfold splitCallbackData, JsString.splitLimit.
  rewrite split_at_colon, split_no_colon by assumption. simpl.
  apply prefix_guard in Hprefix. rewrite Hprefix.
  rewrite slice_from_end; [reflexivity |].
  rewrite append_length. simpl. lia.
Qed.

(** A token [prefix:key:rest] splits at its first two colons only: the rest
    comes back as it is, colons included. *)
Lemma splitCallbackData_three_parts (rest : string) :
  splitCallbackData (prefix ++ String colon (key ++ String colon rest))
  = Ok (prefix, key, JsString.orUndefined rest).
Proof.
  unfold splitCallbackData, JsString.splitLimit.
  rewrite split_at_colon, split_at_colon by assumption. simpl.
  pose proof (split_nonempty colon rest) as Hne.
  destruct (JsString.split colon rest) as [|r rs]; [contradiction |]. simpl.
  apply prefix_guard in Hprefix. rewrite Hprefix.
  replace (prefix ++ String colon (key ++ String colon rest))
    with ((prefix ++ String colon (key ++ String colon EmptyString)) ++ rest).
  2:{ rewrite !append_assoc. simpl. rewrite append_assoc. reflexivity. }
  replace (Z.of_nat (String.length prefix) + Z.of_nat (String.length key) + 2)
    with (Z.of_nat (String.length (prefix ++ String colon (key ++ String colon EmptyString)))).
  2:{ rewrite append_length. simpl. rewrite append_length. simpl. lia. }
  now rewrite slice_from_append.
Qed.

End SplitTokens.

(** ** Hasher *)

Section SliceFacts.

Lemma substring_length (s : string) (n m : nat) :
  String.length (String.substring n m s) = Nat.min m (String.length s - n).
Proof.
  revert n m; induction s as [|c s IH]; intros n m.
  - destruct n, m; reflexivity.
  - destruct n as [|n]; simpl.
    + destruct m as [|m]; simpl; [reflexivity |]. rewrite IH. f_equal. f_equal. lia.
    + apply IH.
Qed.

Lemma substring_allChars (P : ascii -> bool) (s : string) (n m : nat) :
  allChars P s = true -> allChars P (String.substring n m s) = true.
Proof.
  unfold allChars.
  revert n m; induction s as [|c s IH]; intros n m H.
  - destruct n, m; reflexivity.
  - simpl in H. apply andb_prop in H as [Hc Hs].
    destruct n as [|n]; simpl.
    + destruct m as [|m]; simpl; [reflexivity |]. now rewrite Hc, IH.
    + now apply IH.
Qed.

Lemma slice_allChars (P : ascii -> bool) (s : string) (a : Z) (b : option Z) :
  allChars P s = true -> allChars P (JsString.slice s a b) = true.
Proof. intros H. unfold JsString.slice. now apply substring_allChars. Qed.

Lemma slice_prefix_length (s : string) (n : Z) :
  0 <= n -> n <= Z.of_nat (String.length s) ->
  String.length (JsString.slice s 0 (Some n)) = Z.to_nat n.
Proof. intros H0 Hn. rewrite slice_to_length by assumption. lia. Qed.

Lemma slice_suffix_length (s : string) (n : Z) :
  0 <= n -> n <= Z.of_nat (String.length s) ->
  String.length (JsString.slice s n None) = (String.length s - Z.to_nat n)%nat.
Proof.
  intros H0 Hn. unfold JsString.slice, JsString.clampIndex.
  destruct (Z.ltb_spec n 0); [lia |].
  rewrite Z.min_l by lia. rewrite substring_length. lia.
Qed.

Lemma slice_last_length (s : string) (n : Z) :
  0 < n ->
  String.length (JsString.slice s (- n) None) = Nat.min (Z.to_nat n) (String.length s).
Proof.
  intros Hn. unfold JsString.slice, JsString.clampIndex.
  destruct (Z.ltb_spec (- n) 0); [| lia].
  rewrite substring_length. lia.
Qed.

Lemma allChars_append (P : ascii -> bool) (a b : string) :
  allChars P (a ++ b) = allChars P a && allChars P b.
Proof.
  unfold allChars. induction a as [|c a IH]; simpl; [reflexivity |].
  now rewrite IH, andb_assoc.
Qed.

End SliceFacts.

Section MD5Facts.

Lemma hex_length (bytes : list Z) : String.length (MD5.hex bytes) = (2 * length bytes)%nat.
Proof. induction bytes as [|b bs IH]; simpl; [reflexivity | rewrite IH; lia]. Qed.

Lemma hexDigit_lower (n : Z) : isLowerHex (MD5.hexDigit n) = true.
Proof.
  unfold MD5.hexDigit.
  assert (H : Forall (fun c => isLowerHex c = true) MD5.hexDigits).
  { repeat constructor. }
  assert (Hlt : (Z.to_nat (n mod 16) < length MD5.hexDigits)%nat).
  { pose proof (Z.mod_pos_bound n 16 ltac:(lia)). simpl. lia. }
  rewrite Forall_forall in H. apply H, list_elem_of_In, nth_In, Hlt.
Qed.

Lemma hex_lower (bytes : list Z) : allChars isLowerHex (MD5.hex bytes) = true.
Proof.
  unfold allChars. induction bytes as [|b bs IH]; simpl; [reflexivity |].
  now rewrite !hexDigit_lower, IH.
Qed.

Lemma digest_length (msg : list Z) : length (MD5.digest msg) = 16%nat.
Proof.
  unfold MD5.digest.
  destruct (MD5.digestBlocks _ _ _) as [[[a b] c] d]. reflexivity.
Qed.

(** An MD5 digest in hex is 32 characters of [0-9a-f]. *)
Lemma md5Hex_length (content : string) : String.length (md5Hex content) = 32%nat.
Proof. unfold md5Hex, MD5.md5Hex. now rewrite hex_length, digest_length. Qed.

Lemma md5Hex_lower (content : string) : allChars isLowerHex (md5Hex content) = true.
Proof. apply hex_lower. Qed.

(** Test vectors of RFC 1321. *)
Example md5Hex_empty : md5Hex EmptyString = "d41d8cd98f00b204e9800998ecf8427e".
Proof. vm_compute. reflexivity. Qed.

Example md5Hex_abc : md5Hex "abc" = "900150983cd24fb0d6963f7d28e17f72".
Proof. vm_compute. reflexivity. Qed.

Example md5Hex_two_blocks :
  md5Hex "12345678901234567890123456789012345678901234567890123456789012345678901234567890"
  = "57edf4a22be3c955ac49da2e2107b67a".
Proof. vm_compute. reflexivity. Qed.

End MD5Facts.

(** From here on the digest is used through these facts only. *)
#[local] Opaque MD5.md5Hex.

Section Identifiers.

Variable fn : Function.

Let name := fn_name fn.

Lemma digest_prefix_length (content : string) (n : Z) :
  0 <= n <= 32 ->
  String.length (JsString.slice (md5Hex content) 0 (Some n)) = Z.to_nat n.
Proof.
  intros Hn. apply slice_prefix_length; [lia |]. rewrite md5Hex_length. lia.
Qed.

(** A named function: the first eight characters of the name, then digest
    characters up to twelve in all. *)
Lemma calculateFunctionHash_named :
  JsString.truthy name = true ->
  String.length (calculateFunctionHash fn) = 12%nat.
Proof.
  intros Hname. unfold calculateFunctionHash. fold name. rewrite Hname.
  rewrite append_length, slice_to_length by lia.
  rewrite digest_prefix_length by lia.
  destruct name; [discriminate | simpl String.length; lia].
Qed.

(** An anonymous function: the last twenty characters of the digest. *)
Lemma calculateFunctionHash_anonymous :
  JsString.truthy name = false ->
  String.length (calculateFunctionHash fn) = 20%nat.
Proof.
  intros Hname. unfold calculateFunctionHash. fold name. rewrite Hname.
  rewrite slice_suffix_length by (rewrite ?md5Hex_length; lia).
  now rewrite md5Hex_length.
Qed.

End Identifiers.

(** C9, as the code has it. The identifier of a function hashed by its source
    is the first eight characters of its name followed by characters of the
    digest, twelve characters in all, or twenty digest characters when the
    function has no name. The identifier of a function hashed by its path is
    the last twelve characters of the path (of the name when the path is
    empty) followed by [max 4 (16 - fn.name.length)] digest characters, or
    sixteen digest characters when both are empty. The digest characters are
    in [0-9a-f]; the readable part is copied as it is. *)
Theorem identifier_shape (fn : Function) (path : string) :
  (exists digest,
      calculateFunctionHash fn = JsString.slice (fn_name fn) 0 (Some 8) ++ digest
      /\ allChars isLowerHex digest = true
      /\ String.length (calculateFunctionHash fn)
         = if JsString.truthy (fn_name fn) then 12%nat else 20%nat)
  /\ (let name := if JsString.truthy path then path else fn_name fn in
      exists digest,
        calculateFunctionHashWithPath fn path = JsString.slice name (-12) None ++ digest
        /\ allChars isLowerHex digest = true
        /\ String.length (JsString.slice name (-12) None)
           = Nat.min 12 (String.length name)
        /\ String.length digest
           = if JsString.truthy name
             then Z.to_nat (Z.max 4 (16 - Z.of_nat (String.length (fn_name fn))))
             else 16%nat).
Proof.
  split.
  - destruct (JsString.truthy (fn_name fn)) eqn:Hname.
    + eexists. split; [| split].
      * unfold calculateFunctionHash. rewrite Hname. reflexivity.
      * apply slice_allChars, md5Hex_lower.
      * now apply calculateFunctionHash_named.
    + exists (JsString.slice (md5Hex (fn_source fn)) 12 None). split; [| split].
      * unfold calculateFunctionHash. rewrite Hname.
        destruct (fn_name fn); [reflexivity | discriminate].
      * apply slice_allChars, md5Hex_lower.
      * now apply calculateFunctionHash_anonymous.
  - intros name. unfold calculateFunctionHashWithPath. fold name.
    destruct (JsString.truthy name) eqn:Hname.
    + eexists. split; [reflexivity |]. split; [apply slice_allChars, md5Hex_lower |].
      split; [apply (slice_last_length name 12); lia |].
      apply digest_prefix_length. lia.
    + exists (JsString.slice (md5Hex name) 0 (Some 16)). split; [| split; [| split]].
      * destruct name; [reflexivity | discriminate].
      * apply slice_allChars, md5Hex_lower.
      * destruct name; [reflexivity | discriminate].
      * now apply digest_prefix_length.
Qed.

(** C9 as stated fails: the identifier of [open] registered at the path
    [shop.open] keeps the dot of the path and is 21 characters long, and the
    identifier of an anonymous function is 20 characters long. *)
Lemma identifier_not_in_wire_grammar :
  calculateFunctionHashWithPath (idle 0 "open" "async (ctx) => {}") "shop.open"
  = "shop.open238a4a338ccd"
  /\ ~ wireIdentifier
       (calculateFunctionHashWithPath (idle 0 "open" "async (ctx) => {}") "shop.open")
  /\ ~ wireIdentifier (calculateFunctionHash (idle 1 EmptyString "async (ctx) => {}")).
Proof.
  split; [vm_compute; reflexivity |].
  split.
  - intros [H _]. vm_compute in H. discriminate.
  - intros [_ [_ H]]. vm_compute in H. lia.
Qed.

(** ** JSON: [JSON.parse (JSON.stringify v)] *)

Section JsonScalars.

Lemma uint_number_chars (d : Decimal.uint) :
  allChars JSON.isNumberChar (NilEmpty.string_of_uint d) = true.
Proof. unfold allChars. induction d; simpl; auto. Qed.

Lemma string_of_uint_chars (d : Decimal.uint) :
  allChars JSON.isNumberChar (NilZero.string_of_uint d) = true.
Proof.
  destruct d; try apply (uint_number_chars (_ d)); reflexivity.
Qed.

Lemma numberToString_chars (n : Z) :
  allChars JSON.isNumberChar (JSON.numberToString n) = true.
Proof.
  unfold JSON.numberToString, NilZero.string_of_int.
  destruct (Z.to_int n) as [d|d].
  - apply string_of_uint_chars.
  - change (allChars JSON.isNumberChar (String "-" (NilZero.string_of_uint d)) = true).
    unfold allChars. simpl. apply string_of_uint_chars.
Qed.

Lemma numberToString_head (n : Z) :
  exists c t, JSON.numberToString n = String c t /\ JSON.isNumberChar c = true.
Proof.
  pose proof (numberToString_chars n) as H.
  destruct (JSON.numberToString n) as [|c t] eqn:E.
  - exfalso. revert E. unfold JSON.numberToString, NilZero.string_of_int, NilZero.string_of_uint.
    destruct n as [|p|p]; simpl; try discriminate.
    pose proof (Unsigned.to_uint_nonnil p).
    destruct (Pos.to_uint p); simpl; congruence.
  - exists c, t. split; [reflexivity |].
    unfold allChars in H. simpl in H. now apply andb_prop in H as [H _].
Qed.

Lemma spanNumber_append (lit rest : string) :
  allChars JSON.isNumberChar lit = true -> delimited rest = true ->
  JSON.spanNumber (lit ++ rest) = (lit, rest).
Proof.
  unfold allChars. induction lit as [|c lit IH]; simpl; intros Hlit Hrest.
  - destruct rest as [|c r]; simpl in *; [reflexivity |].
    apply negb_true_iff in Hrest. now rewrite Hrest.
  - apply andb_prop in Hlit as [Hc Hlit]. rewrite Hc, IH by assumption. reflexivity.
Qed.

Lemma int_of_numberToString (n : Z) :
  NilZero.int_of_string (JSON.numberToString n) = Some (Z.to_int n).
Proof.
  unfold JSON.numberToString. apply NilZero.isi.
  - destruct n as [|p|p]; simpl; try discriminate.
    intros H. inversion H. now apply (Unsigned.to_uint_nonnil p).
  - destruct n as [|p|p]; simpl; try discriminate.
    intros H. inversion H. now apply (Unsigned.to_uint_nonnil p).
Qed.

Lemma parseNumber_numberToString (n : Z) (rest : string) :
  delimited rest = true ->
  JSON.parseNumber (JSON.numberToString n ++ rest) = Some (VNum n, rest).
Proof.
  intros Hrest. unfold JSON.parseNumber.
  rewrite spanNumber_append by (auto using numberToString_chars).
  rewrite int_of_numberToString, DecimalZ.of_to, String.eqb_refl. reflexivity.
Qed.

Lemma parseValue_number (fuel : nat) (c : ascii) (t : string) :
  JSON.isNumberChar c = true ->
  JSON.parseValue (S fuel) (String c t) = JSON.parseNumber (String c t).
Proof.
  intros H.
  destruct c as [[] [] [] [] [] [] [] []]; try discriminate H; reflexivity.
Qed.

Lemma parseChars_escapeUnit (c : ascii) (rest : string) :
  JSON.parseChars (JSON.escapeUnit c ++ rest) = JSON.consChar c (JSON.parseChars rest).
Proof. destruct c as [[] [] [] [] [] [] [] []]; reflexivity. Qed.

Lemma parseChars_escape (s rest : string) :
  JSON.parseChars (JSON.escape s ++ String JSON.dquote rest) = Some (s, rest).
Proof.
  induction s as [|c s IH].
  - reflexivity.
  - simpl JSON.escape. rewrite append_assoc, parseChars_escapeUnit, IH. reflexivity.
Qed.

Lemma parseChars_quote (s rest : string) :
  JSON.quote s ++ rest = String JSON.dquote (JSON.escape s ++ String JSON.dquote rest).
Proof. unfold JSON.quote. simpl. now rewrite append_assoc. Qed.

End JsonScalars.

Section JsonValues.

(** Induction on values goes through the elements of arrays and the members
    of objects. *)
Lemma JsValue_ind (P : JsValue -> Prop) :
  P VUndefined -> P VNull -> (forall b, P (VBool b)) -> (forall n, P (VNum n)) ->
  (forall s, P (VStr s)) ->
  (forall items, Forall P items -> P (VArr items)) ->
  (forall fields, Forall (fun kv => P (snd kv)) fields -> P (VObj fields)) ->
  (forall name, P (VHost name)) ->
  forall v, P v.
Proof.
  intros Hu Hn Hb Hz Hs Ha Ho Hh.
  fix IH 1. intros [| |b|n|s|items|fields|name].
  - exact Hu.
  - exact Hn.
  - apply Hb.
  - apply Hz.
  - apply Hs.
  - apply Ha.
    refine ((fix each (l : list JsValue) : Forall P l :=
               match l with
               | [] => @List.Forall_nil _ _
               | x :: l' => @List.Forall_cons _ _ x l' (IH x) (each l')
               end) items).
  - apply Ho.
    refine ((fix each (l : list (string * JsValue)) : Forall (fun kv => P (snd kv)) l :=
               match l with
               | [] => @List.Forall_nil _ _
               | kv :: l' => @List.Forall_cons _ _ kv l' (IH (snd kv)) (each l')
               end) fields).
  - apply Hh.
Qed.

Lemma stringify_arr (items : list JsValue) :
  JSON.stringify (VArr items)
  = "[" ++ String.concat "," (map JSON.stringify items) ++ "]".
Proof.
  reflexivity.
Qed.

Lemma stringify_obj (fields : list (string * JsValue)) :
  Forall (fun kv => snd kv <> VUndefined) fields ->
  JSON.stringify (VObj fields) = "{" ++ String.concat "," (map member fields) ++ "}".
Proof.
  intros H. simpl. f_equal. f_equal. f_equal.
  induction H as [|[k x] l Hx _ IH]; simpl; [reflexivity |].
  rewrite IH. destruct x; try reflexivity. now contradiction Hx.
Qed.

Lemma safe_defined (v : JsValue) : JSON.safe v = true -> v <> VUndefined.
Proof. intros H ->. discriminate. Qed.

Lemma safe_arr (items : list JsValue) :
  JSON.safe (VArr items) = true -> Forall (fun x => JSON.safe x = true) items.
Proof.
  simpl. induction items as [|x l IH]; intros H; constructor.
  - now apply andb_prop in H as [H _].
  - apply IH. now apply andb_prop in H as [_ H].
Qed.

Lemma safe_obj (fields : list (string * JsValue)) :
  JSON.safe (VObj fields) = true ->
  NoDup (map fst fields) /\ Forall (fun kv => JSON.safe (snd kv) = true) fields.
Proof.
  simpl. intros H. apply andb_prop in H as [Hnd H].
  split; [now apply bool_decide_eq_true in Hnd |].
  clear Hnd. induction fields as [|[k x] l IH]; constructor.
  - apply andb_prop in H as [H _]. now apply andb_prop in H as [_ H].
  - apply IH. now apply andb_prop in H as [_ H].
Qed.

Lemma number_char_class (c : ascii) :
  JSON.isNumberChar c = true -> JSON.isWs c = false /\ Ascii.eqb c "]" = false.
Proof.
  intros H. destruct c as [[] [] [] [] [] [] [] []]; try discriminate H; split; reflexivity.
Qed.

(** A value never prints as the empty text, nor with white space or a
    closing bracket in front. *)
Lemma stringify_head (v : JsValue) :
  exists c t, JSON.stringify v = String c t
              /\ JSON.isWs c = false /\ Ascii.eqb c "]" = false.
Proof.
  destruct v as [| |[]|n|s|items|fields|name];
    try (eexists _, _; split; [reflexivity | split; reflexivity]).
  destruct (numberToString_head n) as (c & t & E & Hc).
  exists c, t. split; [exact E | now apply number_char_class].
Qed.

Lemma stringify_nonempty (v : JsValue) : (1 <= String.length (JSON.stringify v))%nat.
Proof. destruct (stringify_head v) as (c & t & -> & _). simpl. lia. Qed.

Lemma append_cons (c : ascii) (a b : string) : String c a ++ b = String c (a ++ b).
Proof. reflexivity. Qed.

Lemma append_single (c : ascii) (b : string) : String c EmptyString ++ b = String c b.
Proof. reflexivity. Qed.

Lemma concat_cons (sep x y : string) (l : list string) :
  String.concat sep (x :: y :: l) = x ++ sep ++ String.concat sep (y :: l).
Proof. reflexivity. Qed.

Lemma parseElems_comma (fuel : nat) (s : string) (v : JsValue) (r : string) :
  JSON.parseValue fuel s = Some (v, String "," r) ->
  JSON.parseElems (S fuel) s
  = match JSON.parseElems fuel r with
    | Some (vs, r') => Some (v :: vs, r')
    | None => None
    end.
Proof. intros H. simpl. rewrite H. reflexivity. Qed.

Lemma parseElems_close (fuel : nat) (s : string) (v : JsValue) (r : string) :
  JSON.parseValue fuel s = Some (v, String "]" r) ->
  JSON.parseElems (S fuel) s = Some ([v], r).
Proof. intros H. simpl. rewrite H. reflexivity. Qed.

Lemma parseElems_stringify (items : list JsValue) :
  items <> [] -> Forall parses items ->
  forall (fuel : nat) (rest : string),
    (String.length (String.concat "," (map JSON.stringify items)) + 1 <= fuel)%nat ->
    JSON.parseElems fuel (String.concat "," (map JSON.stringify items) ++ String "]" rest)
    = Some (items, rest).
Proof.
  intros Hne Hall. induction Hall as [|x l Hx Hl IH]; [contradiction |].
  intros fuel rest Hfuel. destruct fuel as [|fuel]; [lia |].
  destruct l as [|y l'].
  - apply parseElems_close. apply Hx; [| reflexivity].
    simpl in Hfuel. lia.
  - rewrite map_cons, (map_cons _ y), concat_cons in *.
    rewrite <- (map_cons _ y) in *.
    remember (String.concat "," (map JSON.stringify (y :: l'))) as C eqn:EC.
    rewrite !append_length in Hfuel. simpl String.length in Hfuel.
    rewrite !append_assoc, append_cons.
    erewrite parseElems_comma.
    2:{ apply Hx; [lia | reflexivity]. }
    simpl (EmptyString ++ _).
    rewrite IH by (discriminate || lia). reflexivity.
Qed.

Lemma parseMembers_comma (fuel : nat) (k s : string) (v : JsValue) (r : string) :
  JSON.parseValue fuel s = Some (v, String "," r) ->
  JSON.parseMembers (S fuel) (JSON.quote k ++ String ":" s)
  = match JSON.parseMembers fuel r with
    | Some (ms, r') => Some ((k, v) :: ms, r')
    | None => None
    end.
Proof.
  intros H. rewrite parseChars_quote. simpl.
  rewrite parseChars_escape. simpl. rewrite H. reflexivity.
Qed.

Lemma parseMembers_close (fuel : nat) (k s : string) (v : JsValue) (r : string) :
  JSON.parseValue fuel s = Some (v, String "}" r) ->
  JSON.parseMembers (S fuel) (JSON.quote k ++ String ":" s) = Some ([(k, v)], r).
Proof.
  intros H. rewrite parseChars_quote. simpl.
  rewrite parseChars_escape. simpl. rewrite H. reflexivity.
Qed.

Lemma member_append (k : string) (x : JsValue) (rest : string) :
  member (k, x) ++ rest = JSON.quote k ++ String ":" (JSON.stringify x ++ rest).
Proof. unfold member. simpl fst. simpl snd. now rewrite !append_assoc. Qed.

Lemma member_length (k : string) (x : JsValue) :
  String.length (member (k, x))
  = (String.length (JSON.quote k) + 1 + String.length (JSON.stringify x))%nat.
Proof. unfold member. simpl fst. simpl snd. rewrite !append_length. simpl. lia. Qed.

Lemma parseMembers_stringify (fields : list (string * JsValue)) :
  fields <> [] -> Forall (fun kv => parses (snd kv)) fields ->
  forall (fuel : nat) (rest : string),
    (String.length (String.concat "," (map member fields)) + 1 <= fuel)%nat ->
    JSON.parseMembers fuel (String.concat "," (map member fields) ++ String "}" rest)
    = Some (fields, rest).
Proof.
  intros Hne Hall. induction Hall as [|[k x] l Hx Hl IH]; [contradiction |].
  intros fuel rest Hfuel. destruct fuel as [|fuel]; [lia |].
  simpl snd in Hx.
  destruct l as [|y l'].
  - simpl map in *. simpl String.concat in *.
    rewrite member_length in Hfuel. rewrite member_append.
    apply parseMembers_close. apply Hx; [lia | reflexivity].
  - rewrite map_cons, (map_cons _ y), concat_cons in *.
    rewrite <- (map_cons _ y) in *.
    remember (String.concat "," (map member (y :: l'))) as C eqn:EC.
    rewrite append_length, member_length in Hfuel. simpl String.length in Hfuel.
    rewrite append_assoc, member_append, append_assoc, append_cons.
    erewrite parseMembers_comma.
    2:{ apply Hx; [lia | reflexivity]. }
    simpl (EmptyString ++ _).
    rewrite IH by (discriminate || lia). reflexivity.
Qed.

Lemma objSet_fresh (acc : list (string * JsValue)) (k : string) (v : JsValue) :
  ~ In k (map fst acc) -> JSON.objSet acc k v = (acc ++ [(k, v)])%list.
Proof.
  induction acc as [|[k' v'] acc IH]; simpl; intros Hk; [reflexivity |].
  destruct (String.eqb_spec k' k) as [->|_]; [tauto |].
  rewrite IH by tauto. reflexivity.
Qed.

Lemma fold_objSet (ms acc : list (string * JsValue)) :
  List.NoDup (map fst (acc ++ ms)%list) ->
  fold_left (fun a kv => JSON.objSet a (fst kv) (snd kv)) ms acc = (acc ++ ms)%list.
Proof.
  revert acc. induction ms as [|[k v] ms IH]; intros acc Hnd; simpl.
  - now rewrite app_nil_r.
  - assert (Hfresh : ~ In k (map fst acc)).
    { rewrite map_app in Hnd. simpl in Hnd.
      apply List.NoDup_remove_2 in Hnd. rewrite in_app_iff in Hnd. tauto. }
    rewrite objSet_fresh by exact Hfresh.
    rewrite IH; rewrite <- app_assoc; [reflexivity | exact Hnd].
Qed.

Lemma objOfMembers_nodup (fields : list (string * JsValue)) :
  NoDup (map fst fields) -> JSON.objOfMembers fields = fields.
Proof.
  intros H. unfold JSON.objOfMembers. rewrite fold_objSet; [reflexivity |].
  simpl. now apply NoDup_ListNoDup.
Qed.

Lemma prefix_append (word rest : string) : String.prefix word (word ++ rest) = true.
Proof.
  induction word as [|c word IH]; simpl.
  - destruct rest; reflexivity.
  - destruct (ascii_dec c c); [exact IH | contradiction].
Qed.

Lemma expect_append (word : string) (v : JsValue) (rest : string) :
  JSON.expect word v (word ++ rest) = Some (v, rest).
Proof.
  unfold JSON.expect. rewrite prefix_append, append_length.
  replace (String.length word + String.length rest - String.length word)%nat
    with (String.length rest) by lia.
  now rewrite substring_skip, substring_all.
Qed.

Lemma parseValue_open_array (fuel : nat) (c : ascii) (t : string) :
  JSON.isWs c = false -> Ascii.eqb c "]" = false ->
  JSON.parseValue (S fuel) (String "[" (String c t))
  = match JSON.parseElems fuel (String c t) with
    | Some (items, r) => Some (VArr items, r)
    | None => None
    end.
Proof. intros Hws Hc. simpl. rewrite Hws, Hc. reflexivity. Qed.

Lemma parseValue_open_object (fuel : nat) (t : string) :
  JSON.parseValue (S fuel) (String "{" (String JSON.dquote t))
  = match JSON.parseMembers fuel (String JSON.dquote t) with
    | Some (ms, r) => Some (VObj (JSON.objOfMembers ms), r)
    | None => None
    end.
Proof. reflexivity. Qed.

(** Parsing the text of a value gives the value back and leaves what
    follows it. *)
Lemma parseValue_stringify (v : JsValue) : JSON.safe v = true -> parses v.
Proof.
  induction v as [| |b|n|s|items IH|fields IH|name] using JsValue_ind;
    intros Hsafe fuel rest Hfuel Hrest; [| | | | | | | discriminate].
  - discriminate.
  - destruct fuel as [|fuel]; [simpl in Hfuel; lia |].
    change (JSON.expect "ull" VNull ("ull" ++ rest) = Some (VNull, rest)).
    apply expect_append.
  - destruct fuel as [|fuel]; [destruct b; simpl in Hfuel; lia |].
    destruct b.
    + change (JSON.expect "rue" (VBool true) ("rue" ++ rest) = Some (VBool true, rest)).
      apply expect_append.
    + change (JSON.expect "alse" (VBool false) ("alse" ++ rest) = Some (VBool false, rest)).
      apply expect_append.
  - destruct fuel as [|fuel]; [pose proof (stringify_nonempty (VNum n)); lia |].
    simpl JSON.stringify.
    destruct (numberToString_head n) as (c & t & E & Hc).
    rewrite E, append_cons, parseValue_number by exact Hc.
    rewrite <- append_cons, <- E. now apply parseNumber_numberToString.
  - destruct fuel as [|fuel]; [pose proof (stringify_nonempty (VStr s)); lia |].
    simpl JSON.stringify. rewrite parseChars_quote. simpl.
    now rewrite parseChars_escape.
  - destruct fuel as [|fuel]; [pose proof (stringify_nonempty (VArr items)); lia |].
    rewrite stringify_arr in *.
    destruct items as [|x l]; [reflexivity |].
    assert (Hall : Forall parses (x :: l)).
    { apply safe_arr in Hsafe. clear -IH Hsafe.
      induction IH as [|y l' Hy _ IHl]; [constructor |].
      inversion Hsafe; subst. constructor; auto. }
    remember (String.concat "," (map JSON.stringify (x :: l))) as C eqn:EC.
    rewrite !append_length in Hfuel. simpl String.length in Hfuel.
    rewrite !append_assoc, !append_single.
    assert (Hhead : exists c t, C ++ String "]" rest = String c t
                                /\ JSON.isWs c = false /\ Ascii.eqb c "]" = false).
    { destruct (stringify_head x) as (c & t & E & Hws & Hc).
      exists c. subst C. destruct l; rewrite ?map_cons, ?concat_cons; simpl String.concat;
        rewrite E; rewrite ?append_cons; eauto. }
    destruct Hhead as (c & t & E & Hws & Hc).
    rewrite E, parseValue_open_array, <- E by assumption. subst C.
    rewrite parseElems_stringify by (discriminate || assumption || lia). reflexivity.
  - destruct fuel as [|fuel]; [pose proof (stringify_nonempty (VObj fields)); lia |].
    apply safe_obj in Hsafe as [Hnd Hsafe].
    rewrite stringify_obj in *
      by (eapply Forall_impl; [exact Hsafe | intros kv; apply safe_defined]).
    destruct fields as [|[k x] l]; [reflexivity |].
    assert (Hall : Forall (fun kv => parses (snd kv)) ((k, x) :: l)).
    { clear -IH Hsafe.
      induction IH as [|y l' Hy _ IHl]; [constructor |].
      inversion Hsafe; subst. constructor; auto. }
    remember (String.concat "," (map member ((k, x) :: l))) as C eqn:EC.
    rewrite !append_length in Hfuel. simpl String.length in Hfuel.
    rewrite !append_assoc, !append_single.
    assert (Hhead : exists t, C ++ String "}" rest = String JSON.dquote t).
    { subst C. destruct l; rewrite ?map_cons, ?concat_cons; simpl String.concat;
        unfold member at 1; simpl fst; unfold JSON.quote; rewrite ?append_cons; eauto. }
    destruct Hhead as (t & E).
    rewrite E, parseValue_open_object, <- E. subst C.
    rewrite parseMembers_stringify by (discriminate || assumption || lia).
    now rewrite objOfMembers_nodup.
Qed.

(** [JSON.parse (JSON.stringify v)] is [v] for every safe value. *)
Lemma parse_stringify (v : JsValue) :
  JSON.safe v = true -> JSON.parse (JSON.stringify v) = Some v.
Proof.
  intros Hsafe. unfold JSON.parse.
  pose proof (parseValue_stringify v Hsafe (S (String.length (JSON.stringify v)))
                EmptyString ltac:(lia) eq_refl) as H.
  rewrite append_empty_r in H. now rewrite H.
Qed.

Example parse_stringify_sample :
  JSON.stringify (VArr [VNum 7; VStr "a:b"; VObj [("k", VBool true)]; VNull])
  = String "[" (String "7" (String "," (JSON.quote "a:b" ++ ",{" ++ JSON.quote "k"
                                          ++ ":true},null]")))
  /\ JSON.parse (JSON.stringify (VArr [VNum 7; VStr "a:b"; VObj [("k", VBool true)]; VNull]))
     = Some (VArr [VNum 7; VStr "a:b"; VObj [("k", VBool true)]; VNull]).
Proof. split; vm_compute; reflexivity. Qed.

End JsonValues.

(** ** Registration *)

Section Registration.

Lemma cb_bound (h : Function) (G : Globals) :
  bound (snd (cb h G)) h (calculateFunctionHash h).
Proof. split; simpl; apply lookup_insert_eq. Qed.

Lemma walk_leaf_bound (f : Function) (path : string) (G G' : Globals) (c : CurriedTree) :
  walk (TFn f) path G = (Ok c, G') ->
  bound G' f (calculateFunctionHashWithPath f (removeLeadingDot path)).
Proof.
  simpl. destruct (callbackRegistry G !! _) eqn:E; intros H; inversion H; subst.
  split; simpl; apply lookup_insert_eq.
Qed.

Lemma getProperty_own {A : Type} (obj : gmap string A) (key : string) (a : A) :
  obj !! key = Some a -> getProperty obj key = Own a.
Proof. intros H. unfold getProperty. now rewrite H. Qed.

Lemma getProperty_absent {A : Type} (obj : gmap string A) (key : string) :
  obj !! key = None -> inherited key = false -> getProperty obj key = Absent.
Proof. intros H Hi. unfold getProperty. now rewrite H, Hi. Qed.

Lemma getProperty_inherited {A : Type} (obj : gmap string A) (key : string) :
  obj !! key = None -> inherited key = true -> getProperty obj key = Inherited.
Proof. intros H Hi. unfold getProperty. now rewrite H, Hi. Qed.

End Registration.

(** ** Round trip through the wire token *)

Section RoundTrip.

Variables (G : Globals) (h : Function) (id : string).
Hypothesis Hbound : bound G h id.
Hypothesis Hid : noColon id = true.

Lemma toCallbackData_no_args (ps : option (list JsValue)) :
  ps = None \/ ps = Some [] ->
  toCallbackData G (createCurried h ps) = "_cb" ++ String colon id.
Proof.
  destruct Hbound as [Hh _]. unfold toCallbackData, originHash. simpl. rewrite Hh.
  intros [-> | ->]; reflexivity.
Qed.

Lemma toCallbackData_args (x : JsValue) (l : list JsValue) :
  toCallbackData G (createCurried h (Some (x :: l)))
  = "_cb" ++ String colon (id ++ String colon (JSON.stringify (VArr (x :: l)))).
Proof.
  destruct Hbound as [Hh _]. unfold toCallbackData, originHash. simpl cc_params.
  simpl origin. rewrite Hh. reflexivity.
Qed.

Lemma cb_prefix_shape : prefixShape "_cb".
Proof. split; [reflexivity | now exists "cb"]. Qed.

Lemma executeCallback_direct (ctx : Context) (A extra : list JsValue) (w : World) :
  JSON.safe (VArr A) = true ->
  executeCallback G ctx (toCallbackData G (createCurried h (Some A))) extra w
  = invoke h ctx (A ++ extra)%list w.
Proof.
  intros Hsafe. destruct Hbound as [_ Hreg]. unfold executeCallback.
  destruct A as [|x l].
  - rewrite toCallbackData_no_args by auto.
    rewrite splitCallbackData_two_parts by (reflexivity || auto using cb_prefix_shape).
    simpl. rewrite (getProperty_own _ _ _ Hreg). reflexivity.
  - rewrite toCallbackData_args.
    rewrite splitCallbackData_three_parts by (reflexivity || auto using cb_prefix_shape).
    destruct (stringify_head (VArr (x :: l))) as (c & t & E & _).
    simpl String.eqb. cbv iota. rewrite (getProperty_own _ _ _ Hreg).
    unfold parseParams, JsString.orUndefined. rewrite E. simpl JsString.truthy. cbv iota.
    rewrite <- E, parse_stringify by exact Hsafe. reflexivity.
Qed.

End RoundTrip.



(** The colons of the arguments stay in the third part of the token. *)
Example round_trip_token :
  splitCallbackData
    (toCallbackData (snd (cb greet noGlobals))
       (createCurried greet (Some [VStr "Ann:Lee"; VNum 7])))
  = Ok ("_cb", "greet6302688",
        Some (String "[" (JSON.quote "Ann:Lee" ++ ",7]"))).
Proof. vm_compute. reflexivity. Qed.


(** ** Lookup failures *)

(** C3, as the code has it. When the identifier of a token is no key of the
    registry, or the session key of a [_ch] token is no key of
    [session.params], and the key names no member of [Object.prototype]
    either, [executeCallback] raises; the [callback_query] handler does not
    catch the error: it ends with it, the world unchanged, and [next] is not
    called. *)
Theorem lookup_failure_propagates (G : Globals) (ctx : Context) (w : World)
    (data p key : string) (rest : option string) (e : JsError) :
  callbackQuery_data ctx = Some data ->
  isCallbackData (Some data) = true ->
  splitCallbackData data = Ok (p, key, rest) ->
  (p = "_ch" /\ params (session w) !! key = None /\ inherited key = false
   /\ e = Error ("Session callback " ++ key ++ " not found"))
  \/ (p <> "_ch" /\ callbackRegistry G !! key = None /\ inherited key = false
      /\ e = Error ("Callback " ++ key ++ " not found in registry"))
  \/ (exists sp, p = "_ch" /\ params (session w) !! key = Some sp
      /\ callbackRegistry G !! sp_hash sp = None /\ inherited (sp_hash sp) = false
      /\ e = Error ("Callback " ++ sp_hash sp ++ " not found in registry")) ->
  executeCallback G ctx data [] w = (Throw e, w)
  /\ forall next : Next, onCallbackQuery G ctx next w = (Throw e, w).
Proof.
  intros Hdata Htoken Hsplit Hfail.
  assert (Hexec : executeCallback G ctx data [] w = (Throw e, w)).
  { unfold executeCallback. rewrite Hsplit.
    destruct Hfail as [(-> & Hp & Hi & ->)
                      | [(Hp & Hreg & Hi & ->) | (sp & -> & Hp & Hreg & Hi & ->)]].
    - simpl. now rewrite (getProperty_absent _ _ Hp Hi).
    - destruct (String.eqb_spec p "_ch") as [E|_]; [contradiction |].
      now rewrite (getProperty_absent _ _ Hreg Hi).
    - simpl. rewrite (getProperty_own _ _ _ Hp).
      now rewrite (getProperty_absent _ _ Hreg Hi). }
  split; [exact Hexec |].
  intros next. unfold onCallbackQuery. rewrite Hdata, Htoken. simpl default.
  now rewrite Hexec.
Qed.

Lemma lookup_failure_propagates_witness :
  let stale := setSession (setParams "0123abcd"
                 {| sp_hash := "gone12345678"; sp_params := "[1]" |}) initialWorld in
  (executeCallback noGlobals (buttonUpdate "_cb:gone12345678") "_cb:gone12345678" []
     initialWorld
   = (Throw (Error "Callback gone12345678 not found in registry"), initialWorld)
   /\ forall next : Next,
       onCallbackQuery noGlobals (buttonUpdate "_cb:gone12345678") next initialWorld
       = (Throw (Error "Callback gone12345678 not found in registry"), initialWorld))
  /\ (executeCallback noGlobals (buttonUpdate "_ch:0123abcd") "_ch:0123abcd" [] initialWorld
      = (Throw (Error "Session callback 0123abcd not found"), initialWorld)
      /\ forall next : Next,
          onCallbackQuery noGlobals (buttonUpdate "_ch:0123abcd") next initialWorld
          = (Throw (Error "Session callback 0123abcd not found"), initialWorld))
  /\ (executeCallback noGlobals (buttonUpdate "_ch:0123abcd") "_ch:0123abcd" [] stale
      = (Throw (Error "Callback gone12345678 not found in registry"), stale)
      /\ forall next : Next,
          onCallbackQuery noGlobals (buttonUpdate "_ch:0123abcd") next stale
          = (Throw (Error "Callback gone12345678 not found in registry"), stale)).
Proof.
  intros stale. split; [| split].
  - apply (lookup_failure_propagates noGlobals (buttonUpdate "_cb:gone12345678")
             initialWorld "_cb:gone12345678" "_cb" "gone12345678" None).
    + reflexivity.
    + reflexivity.
    + reflexivity.
    + right. left. split; [discriminate | split; [reflexivity | split; reflexivity]].
  - apply (lookup_failure_propagates noGlobals (buttonUpdate "_ch:0123abcd")
             initialWorld "_ch:0123abcd" "_ch" "0123abcd" None).
    + reflexivity.
    + reflexivity.
    + reflexivity.
    + left. split; [reflexivity | split; [reflexivity | split; reflexivity]].
  - apply (lookup_failure_propagates noGlobals (buttonUpdate "_ch:0123abcd")
             stale "_ch:0123abcd" "_ch" "0123abcd" None).
    + reflexivity.
    + reflexivity.
    + reflexivity.
    + right. right. exists {| sp_hash := "gone12345678"; sp_params := "[1]" |}.
      split; [reflexivity | split; [reflexivity | split; [reflexivity | split; reflexivity]]].
Defined.

(** C3 as stated fails: a press carrying [_cb:gone12345678] with nothing
    registered, or [_ch:0123abcd] with no session entry, makes the handler
    raise, where falling through would have run [next]. *)
Lemma lookup_failure_breaks_dispatch :
  onCallbackQuery noGlobals (buttonUpdate "_cb:gone12345678") fallThrough initialWorld
  = (Throw (Error "Callback gone12345678 not found in registry"), initialWorld)
  /\ onCallbackQuery noGlobals (buttonUpdate "_ch:0123abcd") fallThrough initialWorld
     = (Throw (Error "Session callback 0123abcd not found"), initialWorld)
  /\ onCallbackQuery noGlobals (buttonUpdate "_cb:gone12345678") fallThrough initialWorld
     <> fallThrough initialWorld
  /\ onCallbackQuery noGlobals (buttonUpdate "_ch:0123abcd") fallThrough initialWorld
     <> fallThrough initialWorld.
Proof. repeat split; try (vm_compute; reflexivity); vm_compute; discriminate. Qed.

(** Data that is not token-shaped does fall through. *)
Lemma onCallbackQuery_other_data (G : Globals) (ctx : Context) (next : Next) (w : World) :
  isCallbackData (callbackQuery_data ctx) = false ->
  onCallbackQuery G ctx next w = next w.
Proof. intros H. unfold onCallbackQuery. now rewrite H. Qed.

(** A key that names a member of [Object.prototype] is found on the
    prototype chain. In the place of a handler, [constructor] is [Object]
    and returns the context, so that the press counts as handled; [toString]
    returns a text; [__proto__] is not callable and [valueOf] needs a
    receiver. In the place of a session entry, the member has no [hash]. *)
Example executeCallback_inherited_members :
  executeCallback noGlobals (buttonUpdate "_cb:constructor") "_cb:constructor" [] initialWorld
  = (Ok (VHost "ctx"), initialWorld)
  /\ onCallbackQuery noGlobals (buttonUpdate "_cb:constructor") fallThrough initialWorld
     = (Ok tt, initialWorld)
  /\ executeCallback noGlobals (buttonUpdate "_cb:toString") "_cb:toString" [] initialWorld
     = (Ok (VStr "[object Undefined]"), initialWorld)
  /\ executeCallback noGlobals (buttonUpdate "_cb:__proto__") "_cb:__proto__" [] initialWorld
     = (Throw (TypeError "callback is not a function"), initialWorld)
  /\ executeCallback noGlobals (buttonUpdate "_cb:valueOf") "_cb:valueOf" [] initialWorld
     = (Throw (TypeError "Cannot convert undefined or null to object"), initialWorld)
  /\ executeCallback noGlobals (buttonUpdate "_ch:constructor") "_ch:constructor" []
       initialWorld
     = (Throw (Error "Callback undefined not found in registry"), initialWorld).
Proof. repeat split; vm_compute; reflexivity. Qed.

(** ** Plain text *)

Section ReplyTable.

(** The reply table is only written with truthy tokens. *)
Lemma recordReplyButton_truthy (d : CallbackSessionData) (button : KeyboardButton) :
  replyTokensTruthy d -> replyTokensTruthy (recordReplyButton d button).
Proof.
  intros Hd. unfold recordReplyButton.
  destruct (orElse _ _) as [data|]; [| exact Hd].
  destruct (JsString.truthy data) eqn:E; [| exact Hd].
  assert (Hset : replyTokensTruthy (setReply (kb_text button) data d)).
  { intros text data'. simpl. rewrite lookup_insert.
    destruct (decide (kb_text button = text)); [congruence | apply Hd]. }
  unfold assignReply. destruct (reply d !! kb_text button); [exact Hset |].
  destruct (String.eqb (kb_text button) "__proto__"); [exact Hd | exact Hset].
Qed.

Lemma recordReplyKeyboard_truthy (keyboard : list (list KeyboardButton))
    (d : CallbackSessionData) :
  replyTokensTruthy d -> replyTokensTruthy (recordReplyKeyboard keyboard d).
Proof.
  unfold recordReplyKeyboard. generalize (concat keyboard). intros buttons.
  revert d. induction buttons as [|b bs IH]; intros d Hd; simpl; [exact Hd |].
  apply IH. now apply recordReplyButton_truthy.
Qed.

Lemma initialCallbackData_truthy : replyTokensTruthy initialCallbackData.
Proof. intros text data H. simpl in H. now rewrite lookup_empty in H. Qed.

End ReplyTable.





(** The two outcomes on concrete updates: [greet] resolves to [undefined]
    and the update is handled; a text without entry goes to [next]. *)
Example handleText_handled :
  handleText (snd (cb greet noGlobals)) (textUpdate "Open") fallThrough
    (setSession (setReply "Open" "_cb:greet6302688") initialWorld)
  = (Ok tt, emit (Invoke 1 [])
              (setSession (setReply "Open" "_cb:greet6302688") initialWorld)).
Proof. vm_compute. reflexivity. Qed.

Example handleText_no_entry :
  handleText (snd (cb greet noGlobals)) (textUpdate "Close") fallThrough
    (setSession (setReply "Open" "_cb:greet6302688") initialWorld)
  = fallThrough (setSession (setReply "Open" "_cb:greet6302688") initialWorld).
Proof. vm_compute. reflexivity. Qed.

(** ** Overflow into the session *)

Section Overflow.

Lemma allChars_impl (P Q : ascii -> bool) (s : string) :
  (forall c, P c = true -> Q c = true) -> allChars P s = true -> allChars Q s = true.
Proof.
  intros HPQ. unfold allChars. induction s as [|c s IH]; simpl; [reflexivity |].
  intros H. apply andb_prop in H as [Hc Hs]. now rewrite (HPQ c Hc), IH.
Qed.

Lemma lower_hex_not_colon (c : ascii) :
  isLowerHex c = true -> negb (Ascii.eqb c colon) = true.
Proof.
  intros H. destruct (Ascii.eqb_spec c colon) as [->|_]; [discriminate H | reflexivity].
Qed.

(** The short hash is eight characters of [0-9a-f]. *)
Lemma generateHash_shape (json : string) :
  String.length (generateHash json) = 8%nat
  /\ allChars isLowerHex (generateHash json) = true.
Proof.
  unfold generateHash. split.
  - now apply digest_prefix_length.
  - apply slice_allChars, md5Hex_lower.
Qed.

Lemma generateHash_no_colon (json : string) : noColon (generateHash json) = true.
Proof.
  apply (allChars_impl isLowerHex); [apply lower_hex_not_colon |].
  apply generateHash_shape.
Qed.

Lemma ch_prefix_shape : prefixShape "_ch".
Proof. split; [reflexivity | now exists "ch"]. Qed.

(** What [storeCallbackData] does with a token that carries arguments. *)
Lemma storeCallbackData_args (cbData p id json : string) (w : World) :
  splitCallbackData cbData = Ok (p, id, Some json) ->
  storeCallbackData cbData w
  = (Ok ("_ch:" ++ generateHash json),
     setSession (setParams (generateHash json) {| sp_hash := id; sp_params := json |}) w).
Proof. intros H. unfold storeCallbackData. now rewrite H. Qed.

(** A token without arguments is returned as it is. *)
Lemma storeCallbackData_no_args (cbData p id : string) (w : World) :
  splitCallbackData cbData = Ok (p, id, None) ->
  storeCallbackData cbData w = (Ok cbData, w).
Proof. intros H. unfold storeCallbackData. now rewrite H. Qed.

(** Executing the reference right after the store invokes the handler of the
    token with the arguments of the token. *)
Lemma storeCallbackData_round_trip (G : Globals) (h : Function) (id : string)
    (ctx : Context) (x : JsValue) (l : list JsValue) (w : World) :
  bound G h id -> noColon id = true -> JSON.safe (VArr (x :: l)) = true ->
  exists token w',
    storeCallbackData (toCallbackData G (createCurried h (Some (x :: l)))) w = (Ok token, w')
    /\ token = "_ch:" ++ generateHash (JSON.stringify (VArr (x :: l)))
    /\ params (session w') !! generateHash (JSON.stringify (VArr (x :: l)))
       = Some {| sp_hash := id; sp_params := JSON.stringify (VArr (x :: l)) |}
    /\ executeCallback G ctx token [] w' = invoke h ctx (x :: l) w'.
Proof.
  intros Hbound Hid Hsafe.
  set (json := JSON.stringify (VArr (x :: l))).
  assert (Hjson : JsString.orUndefined json = Some json).
  { destruct (stringify_head (VArr (x :: l))) as (c & t & E & _).
    unfold json. rewrite E. reflexivity. }
  assert (Hsplit : splitCallbackData (toCallbackData G (createCurried h (Some (x :: l))))
                   = Ok ("_cb", id, Some json)).
  { rewrite (toCallbackData_args G h id Hbound).
    rewrite splitCallbackData_three_parts by (reflexivity || auto using cb_prefix_shape).
    fold json. now rewrite Hjson. }
  eexists _, _. split; [apply (storeCallbackData_args _ _ _ _ _ Hsplit) |].
  split; [reflexivity |]. split; [simpl; apply lookup_insert_eq |].
  unfold executeCallback, getProperty.
  change ("_ch:" ++ generateHash json) with ("_ch" ++ String colon (generateHash json)).
  rewrite splitCallbackData_two_parts
    by (reflexivity || auto using ch_prefix_shape, generateHash_no_colon).
  simpl String.eqb. cbv iota. simpl session. simpl params. rewrite lookup_insert_eq.
  simpl sp_hash. simpl sp_params. destruct Hbound as [_ ->].
  unfold parseParams.
  assert (Ht : JsString.truthy json = true).
  { unfold JsString.orUndefined in Hjson. destruct (JsString.truthy json); congruence. }
  rewrite Ht. unfold json. rewrite parse_stringify by exact Hsafe.
  unfold spread. now rewrite app_nil_r.
Qed.

(** Two handlers, one argument list: both stores return the same reference,
    and it resolves to the handler stored last. *)
Lemma storeCallbackData_shared_entry (G : Globals) (h1 h2 : Function) (id1 id2 : string)
    (ctx : Context) (x : JsValue) (l : list JsValue) (w : World) :
  bound G h1 id1 -> noColon id1 = true ->
  bound G h2 id2 -> noColon id2 = true ->
  JSON.safe (VArr (x :: l)) = true ->
  exists token w1 w2,
    storeCallbackData (toCallbackData G (createCurried h1 (Some (x :: l)))) w = (Ok token, w1)
    /\ storeCallbackData (toCallbackData G (createCurried h2 (Some (x :: l)))) w1
       = (Ok token, w2)
    /\ executeCallback G ctx token [] w2 = invoke h2 ctx (x :: l) w2.
Proof.
  intros Hb1 Hc1 Hb2 Hc2 Hsafe.
  destruct (storeCallbackData_round_trip G h1 id1 ctx x l w Hb1 Hc1 Hsafe)
    as (t1 & w1 & Hs1 & Ht1 & _).
  destruct (storeCallbackData_round_trip G h2 id2 ctx x l w1 Hb2 Hc2 Hsafe)
    as (t2 & w2 & Hs2 & Ht2 & _ & Hexec).
  exists t1, w1, w2. subst t1 t2. auto.
Qed.

End Overflow.

Section ColonFreeIdentifiers.

Lemma digest_no_colon (content : string) (a : Z) (b : option Z) :
  noColon (JsString.slice (md5Hex content) a b) = true.
Proof.
  apply (allChars_impl isLowerHex); [apply lower_hex_not_colon |].
  apply slice_allChars, md5Hex_lower.
Qed.

(** A name without colon gives an identifier without colon, and so does a
    path without colon: the tokens of such handlers split where they were
    joined. *)
Lemma calculateFunctionHash_no_colon (fn : Function) :
  noColon (fn_name fn) = true -> noColon (calculateFunctionHash fn) = true.
Proof.
  intros H. unfold calculateFunctionHash.
  destruct (JsString.truthy (fn_name fn)); [| apply digest_no_colon].
  unfold noColon. rewrite allChars_append.
  apply andb_true_intro. split; [now apply slice_allChars | apply digest_no_colon].
Qed.

Lemma calculateFunctionHashWithPath_no_colon (fn : Function) (path : string) :
  noColon path = true -> noColon (fn_name fn) = true ->
  noColon (calculateFunctionHashWithPath fn path) = true.
Proof.
  intros Hp Hn. unfold calculateFunctionHashWithPath.
  set (name := if JsString.truthy path then path else fn_name fn).
  assert (Hname : noColon name = true) by (unfold name; destruct (JsString.truthy path); auto).
  destruct (JsString.truthy name); [| apply digest_no_colon].
  unfold noColon. rewrite allChars_append.
  apply andb_true_intro. split; [now apply slice_allChars | apply digest_no_colon].
Qed.

End ColonFreeIdentifiers.

(** C4 at a failing input. [editUser(123)] and [deleteUser(123)] have the
    same argument JSON, so both stores write the entry [4951b997]: the
    reference returned for [editUser] then invokes [deleteUser]. *)
Lemma overflow_entry_shared_across_handlers :
  let G := snd (cb deleteUser (snd (cb editUser noGlobals))) in
  let ctx := buttonUpdate "_ch:4951b997" in
  let edit := toCallbackData G (createCurried editUser (Some [VNum 123])) in
  let delete := toCallbackData G (createCurried deleteUser (Some [VNum 123])) in
  let stored1 := storeCallbackData edit initialWorld in
  let stored2 := storeCallbackData delete (snd stored1) in
  edit = "_cb:editUser539a:[123]"
  /\ delete = "_cb:deleteUs13c2:[123]"
  /\ fst stored1 = Ok "_ch:4951b997"
  /\ fst stored2 = Ok "_ch:4951b997"
  /\ executeCallback G ctx "_ch:4951b997" [] (snd stored1)
     = invoke editUser ctx [VNum 123] (snd stored1)
  /\ executeCallback G ctx "_ch:4951b997" [] (snd stored2)
     = invoke deleteUser ctx [VNum 123] (snd stored2)
  /\ trace (snd (executeCallback G ctx "_ch:4951b997" [] (snd stored2)))
     = [Invoke (fn_ref deleteUser) [VNum 123]].
Proof. repeat split; vm_compute; reflexivity. Qed.

(** ** Wait protocol *)

Section WaitFacts.

Lemma clearWaitState_wait (w : World) : wait_ (session (clearWaitState w)) = None.
Proof. unfold clearWaitState. destruct (wait_ (session w)) as [ws|]; reflexivity. Qed.

Lemma clearWaitState_trace (w : World) :
  trace (clearWaitState w) = (trace w ++ anchorDeletion (wait_ (session w)))%list.
Proof.
  unfold clearWaitState, anchorDeletion.
  destruct (wait_ (session w)) as [ws|]; simpl.
  - destruct (messageId ws =? 0); simpl; [now rewrite app_nil_r | reflexivity].
  - now rewrite app_nil_r.
Qed.

Lemma clearWaitState_nextRef (w : World) : nextRef (clearWaitState w) = nextRef w.
Proof.
  unfold clearWaitState. destruct (wait_ (session w)) as [ws|]; simpl; [| reflexivity].
  destruct (messageId ws =? 0); reflexivity.
Qed.

(** A successful call of [wait] is the store of the new state after the
    clearing of the old one. *)
Lemma wait_ok (G : Globals) (filter : WaitFilter) (hOrO : option HandlerOrOptions)
    (opts : option WaitOptions) (w w' : World) :
  wait G filter hOrO opts w = (Ok tt, w') ->
  exists handler queries,
    waitHandler filter hOrO = Some handler
    /\ w' = storeWait (fun r =>
              {| ws_ref := r;
                 messageId := optMessageId (waitOptionsOf filter hOrO opts);
                 cancelKeyword :=
                   JsString.toLowerCase
                     (optCancelKeyword "/cancelwait" (waitOptionsOf filter hOrO opts));
                 filter := Some queries;
                 handlerId := toCallbackData G handler;
                 timeoutId := 0 |}) (clearWaitState w).
Proof.
  unfold wait. destruct filter as [q|qs|c]; simpl.
  - destruct hOrO as [[h|o]|]; intros H; inversion H. eauto.
  - destruct hOrO as [[h|o]|]; intros H; inversion H. eauto.
  - intros H; inversion H. eauto.
Qed.

Lemma toLowerCase_truthy (s : string) :
  JsString.truthy (JsString.toLowerCase s) = JsString.truthy s.
Proof. destruct s; reflexivity. Qed.

Lemma optCancelKeyword_truthy (fallback : string) (o : option WaitOptions) :
  JsString.truthy fallback = true ->
  JsString.truthy (optCancelKeyword fallback o) = true.
Proof.
  intros H. unfold optCancelKeyword.
  destruct o as [o|]; [| exact H].
  destruct (opt_cancelKeyword o) as [k|]; [| exact H].
  destruct (JsString.truthy k) eqn:E; assumption.
Qed.



(** References are allocated in order: whatever the world before, the state
    a call of [wait] leaves has a reference below the next one. *)
Lemma wait_refs_fresh (G : Globals) (filter : WaitFilter) (hOrO : option HandlerOrOptions)
    (opts : option WaitOptions) (w w' : World) (r : Result unit) :
  wait G filter hOrO opts w = (r, w') -> refsFresh w'.
Proof.
  intros H ws Hws. destruct r as [[]|e].
  - destruct (wait_ok _ _ _ _ _ _ H) as (handler & queries & _ & ->).
    simpl in Hws. inversion Hws; subst ws. simpl. lia.
  - assert (w' = clearWaitState w) as ->.
    { unfold wait in H. destruct filter as [q|qs|c]; simpl in H;
        try (destruct hOrO as [[h|o]|]); inversion H; reflexivity. }
    now rewrite clearWaitState_wait in Hws.
Qed.

Lemma initialWorld_refs_fresh : refsFresh initialWorld.
Proof. intros ws H. discriminate H. Qed.

End WaitFacts.

(** C5. A call of [wait] made while a Wait State exists first clears that
    state, asking the host to delete its anchor message when it has one, and
    then stores the new state: the session holds the new state alone, under
    a fresh reference. *)
Theorem wait_replaces_previous (G : Globals) (filter : WaitFilter)
    (hOrO : option HandlerOrOptions) (opts : option WaitOptions)
    (w w' : World) (old : WaitState) :
  wait_ (session w) = Some old ->
  wait G filter hOrO opts w = (Ok tt, w') ->
  exists new handler,
    wait_ (session w') = Some new
    /\ waitHandler filter hOrO = Some handler
    /\ handlerId new = toCallbackData G handler
    /\ ws_ref new = nextRef w
    /\ ((ws_ref old < nextRef w)%nat -> sameWait (Some new) old = false)
    /\ wait_ (session (clearWaitState w)) = None
    /\ trace (clearWaitState w) = (trace w ++ anchorDeletion (Some old))%list
    /\ w' = storeWait (fun _ => new) (clearWaitState w)
    /\ trace w' = trace (clearWaitState w).
Proof.
  intros Hold Hwait.
  destruct (wait_ok _ _ _ _ _ _ Hwait) as (handler & queries & Hh & ->).
  eexists _, handler. split; [reflexivity |].
  split; [exact Hh |]. split; [reflexivity |].
  split; [cbn [ws_ref]; apply clearWaitState_nextRef |].
  split.
  { intros Hlt. unfold sameWait. cbn [ws_ref].
    rewrite clearWaitState_nextRef. apply Nat.eqb_neq. lia. }
  split; [apply clearWaitState_wait |].
  split; [now rewrite clearWaitState_trace, Hold |].
  split; reflexivity.
Qed.

Lemma wait_replaces_previous_witness :
  let w := pausedFor retry (Some (anchored 42)) in
  let w' := snd (wait pauseGlobals (FilterCallback (createCurried greet None)) None None w) in
  exists new handler,
    wait_ (session w') = Some new
    /\ waitHandler (FilterCallback (createCurried greet None)) None = Some handler
    /\ handlerId new = toCallbackData pauseGlobals handler
    /\ ws_ref new = nextRef w
    /\ ((0 < nextRef w)%nat ->
        sameWait (Some new)
          {| ws_ref := 0; messageId := 42; handlerId := "_cb:retry84e4d07";
             filter := Some ["message:text"]; cancelKeyword := "/cancelwait";
             timeoutId := 0 |} = false)
    /\ wait_ (session (clearWaitState w)) = None
    /\ trace (clearWaitState w) = (trace w ++ [DeleteMessages [42]])%list
    /\ w' = storeWait (fun _ => new) (clearWaitState w)
    /\ trace w' = trace (clearWaitState w).
Proof.
  intros w w'.
  apply (wait_replaces_previous pauseGlobals (FilterCallback (createCurried greet None))
           None None w w'
           {| ws_ref := 0; messageId := 42; handlerId := "_cb:retry84e4d07";
              filter := Some ["message:text"]; cancelKeyword := "/cancelwait";
              timeoutId := 0 |}).
  - vm_compute. reflexivity.
  - vm_compute. reflexivity.
Defined.

(** Two calls of [wait] in a row: one state, the second, and the anchor of
    the first deleted. *)
Example wait_twice :
  let w := snd (wait pauseGlobals (FilterCallback (createCurried greet None)) None None
                  (pausedFor retry (Some (anchored 42)))) in
  wait_ (session w)
  = Some {| ws_ref := 1; messageId := 0; handlerId := "_cb:greet6302688";
            filter := Some ["message:text"]; cancelKeyword := "/cancelwait";
            timeoutId := 0 |}
  /\ trace w = [DeleteMessages [42]].
Proof. split; vm_compute; reflexivity. Qed.




(** With the keyword given as [/cancel], [/CANCEL] does cancel. *)
Example slash_cancel_given :
  handleWaitResponse pauseGlobals (textUpdate "/CANCEL")
    (pausedFor greet (Some (cancelledBy "/cancel")))
  = (Ok true, clearWaitState (pausedFor greet (Some (cancelledBy "/cancel"))))
  /\ trace (clearWaitState (pausedFor greet (Some (cancelledBy "/cancel")))) = [].
Proof. split; vm_compute; reflexivity. Qed.

(** The earlier revision of [wait.ts] had [/cancel] for the keyword of a
    call that gives none. *)
Lemma earlier_cancel_keyword (G : Globals) (c : CurriedCallback) (w0 w : World)
    (ctx : Context) (t : string) :
  Earlier.wait G (FilterCallback c) None None w0 = (Ok tt, w) ->
  updateText ctx = Some t -> JsString.toLowerCase t = "/cancel" ->
  Earlier.handleWaitResponse G ctx w = (Ok true, clearWaitState w).
Proof.
  intros Hwait Ht Hkw. unfold Earlier.wait in Hwait. simpl in Hwait.
  inversion Hwait; subst w; clear Hwait.
  unfold Earlier.handleWaitResponse, Earlier.isCancel. simpl wait_. cbn [cancelKeyword].
  rewrite Ht, Hkw. simpl.
  rewrite <- (toLowerCase_truthy t), Hkw. reflexivity.
Qed.

Section Resolution.

Lemma isFalse_spec (v : JsValue) : isFalse v = true <-> v = VBool false.
Proof.
  split; [| intros ->; reflexivity].
  destruct v as [| |[]|n|s|items|fields|name]; try discriminate; reflexivity.
Qed.

Lemma isFalse_other (v : JsValue) : Ok v <> Ok (VBool false) -> isFalse v = false.
Proof.
  intros H. destruct (isFalse v) eqn:E; [| reflexivity].
  apply isFalse_spec in E. subst v. contradiction.
Qed.


Lemma toCallbackData_truthy (G : Globals) (c : CurriedCallback) :
  JsString.truthy (toCallbackData G c) = true.
Proof. unfold toCallbackData. destruct (cc_params c) as [[|x l]|]; reflexivity. Qed.

End Resolution.




(** The four resolutions on concrete handlers. [retry] resolves to [false]:
    the state stays. *)
Example resolution_false_keeps_state :
  let w := pausedFor retry (Some (anchored 42)) in
  let r := handleWaitResponse pauseGlobals (textUpdate "hello") w in
  fst r = Ok true
  /\ wait_ (session (snd r)) = wait_ (session w)
  /\ trace (snd r) = [Invoke (fn_ref retry) [VStr "hello"]].
Proof. repeat split; vm_compute; reflexivity. Qed.

(** [greet] resolves to [undefined]: the state is cleared and its anchor
    deleted. *)
Example resolution_value_clears_state :
  let w := pausedFor greet (Some (anchored 42)) in
  let r := handleWaitResponse pauseGlobals (textUpdate "hello") w in
  fst r = Ok true
  /\ wait_ (session (snd r)) = None
  /\ trace (snd r) = [Invoke (fn_ref greet) [VStr "hello"]; DeleteMessages [42]].
Proof. repeat split; vm_compute; reflexivity. Qed.

(** [failing] raises: the error is logged and the state is cleared. *)
Example resolution_error_clears_state :
  let w := pausedFor failing None in
  let r := handleWaitResponse pauseGlobals (textUpdate "hello") w in
  fst r = Ok true
  /\ wait_ (session (snd r)) = None
  /\ trace (snd r) = [Invoke (fn_ref failing) [VStr "hello"]; ConsoleWarn].
Proof. repeat split; vm_compute; reflexivity. Qed.

(** [askAgain] calls [wait] itself: the state it installed stays. *)
Example resolution_new_state_stays :
  let w := pausedFor askAgain (Some (anchored 42)) in
  let r := handleWaitResponse pauseGlobals (textUpdate "hello") w in
  fst r = Ok true
  /\ wait_ (session (snd r))
     = Some {| ws_ref := 1; messageId := 0; handlerId := "_cb:greet6302688";
               filter := Some ["message:text"]; cancelKeyword := "/cancelwait";
               timeoutId := 0 |}
  /\ trace (snd r) = [Invoke (fn_ref askAgain) [VStr "hello"]; DeleteMessages [42]].
Proof. repeat split; vm_compute; reflexivity. Qed.

(** A filter miss leaves everything as it is and reports the update as not
    handled. *)
Lemma handleWaitResponse_filter_miss (G : Globals) (ctx : Context) (w : World)
    (ws : WaitState) :
  wait_ (session w) = Some ws ->
  isCancel (updateText ctx) (cancelKeyword ws) = false ->
  filterMiss ctx (filter ws) = Ok true ->
  handleWaitResponse G ctx w = (Ok false, w).
Proof.
  intros Hws Hcancel Hmiss. unfold handleWaitResponse.
  now rewrite Hws, Hcancel, Hmiss.
Qed.

(** However many calls of [wait] are made in a row, the session holds the
    state of the last one and no other. *)
Lemma waitAll_last_wins (G : Globals) (calls : list WaitCall) (filter : WaitFilter)
    (hOrO : option HandlerOrOptions) (opts : option WaitOptions) (w w' : World) :
  waitAll G (calls ++ [(filter, hOrO, opts)])%list w = (Ok tt, w') ->
  exists new handler,
    wait_ (session w') = Some new
    /\ waitHandler filter hOrO = Some handler
    /\ handlerId new = toCallbackData G handler
    /\ S (ws_ref new) = nextRef w'.
Proof.
  revert w. induction calls as [|[[f h] o] calls IH]; intros w H; simpl in H.
  - destruct (wait G filter hOrO opts w) as [[[]|e] w1] eqn:E; [| discriminate].
    inversion H; subst w1.
    destruct (wait_ok _ _ _ _ _ _ E) as (handler & queries & Hh & ->).
    eexists _, handler. repeat split; assumption || reflexivity.
  - destruct (wait G f h o w) as [[[]|e] w1] eqn:E; [| discriminate].
    now apply (IH w1).
Qed.

(** ** Registration of trees *)

Section Trees.

Lemma CallbackTree_ind (P : CallbackTree -> Prop) :
  (forall f, P (TFn f)) ->
  (forall entries, Forall (fun kv => P (snd kv)) entries -> P (TObj entries)) ->
  (forall items, Forall P items -> P (TArr items)) ->
  (forall v, P (TPrim v)) ->
  forall t, P t.
Proof.
  intros Hf Ho Ha Hp.
  fix IH 1. intros [f|entries|items|v].
  - apply Hf.
  - apply Ho.
    refine ((fix each (l : list (string * CallbackTree))
               : Forall (fun kv => P (snd kv)) l :=
               match l with
               | [] => @List.Forall_nil _ _
               | kv :: l' => @List.Forall_cons _ _ kv l' (IH (snd kv)) (each l')
               end) entries).
  - apply Ha.
    refine ((fix each (l : list CallbackTree) : Forall P l :=
               match l with
               | [] => @List.Forall_nil _ _
               | x :: l' => @List.Forall_cons _ _ x l' (IH x) (each l')
               end) items).
  - apply Hp.
Qed.

(** A walk only adds bindings to the registry. *)
Lemma walk_registry_grows (t : CallbackTree) :
  forall p G r G', walk t p G = (r, G') -> callbackRegistry G ⊆ callbackRegistry G'.
Proof.
  induction t as [f|entries IH|items IH|v] using CallbackTree_ind; intros p G r G' H.
  - simpl in H. destruct (callbackRegistry G !! _) eqn:E; inversion H; subst.
    + reflexivity.
    + simpl. now apply insert_subseteq.
  - simpl in H. destruct (walkEntries walk p entries G) as [r0 G0] eqn:E.
    assert (G0 = G') by congruence. subst G0. clear H r. revert G r0 E.
    induction IH as [|[key value] l Hv _ IHl]; intros G r0 E; simpl in E.
    + inversion E; subst. reflexivity.
    + simpl in Hv. destruct (walk value (childPath p key) G) as [[c|e] G1] eqn:E1.
      * destruct (walkEntries walk p l G1) as [[cs|e] G2] eqn:E2;
          inversion E; subst; (etrans; [eapply Hv, E1 | eapply IHl, E2]).
      * inversion E; subst. eapply Hv, E1.
  - simpl in H. destruct (walkItems walk p items 0 G) as [r0 G0] eqn:E.
    assert (G0 = G') by congruence. subst G0. clear H r. revert G r0 E. generalize 0%nat.
    induction IH as [|value l Hv _ IHl]; intros i G r0 E; simpl in E.
    + inversion E; subst. reflexivity.
    + destruct (walk value (childPath p (indexKey i)) G) as [[c|e] G1] eqn:E1.
      * destruct (walkItems walk p l (S i) G1) as [[cs|e] G2] eqn:E2;
          inversion E; subst; (etrans; [eapply Hv, E1 | eapply IHl, E2]).
      * inversion E; subst. eapply Hv, E1.
  - inversion H; subst. reflexivity.
Qed.

Lemma walkEntries_registry_grows (p : string) (l : list (string * CallbackTree)) :
  forall G r G', walkEntries walk p l G = (r, G') ->
                 callbackRegistry G ⊆ callbackRegistry G'.
Proof.
  induction l as [|[key value] l IHl]; intros G r G' E; simpl in E.
  - inversion E; subst. reflexivity.
  - destruct (walk value (childPath p key) G) as [[c|e] G1] eqn:E1.
    + destruct (walkEntries walk p l G1) as [[cs|e] G2] eqn:E2;
        inversion E; subst; (etrans; [eapply walk_registry_grows, E1 | eapply IHl, E2]).
    + inversion E; subst. eapply walk_registry_grows, E1.
Qed.

Lemma walkItems_registry_grows (p : string) (l : list CallbackTree) :
  forall i G r G', walkItems walk p l i G = (r, G') ->
                   callbackRegistry G ⊆ callbackRegistry G'.
Proof.
  induction l as [|value l IHl]; intros i G r G' E; simpl in E.
  - inversion E; subst. reflexivity.
  - destruct (walk value (childPath p (indexKey i)) G) as [[c|e] G1] eqn:E1.
    + destruct (walkItems walk p l (S i) G1) as [[cs|e] G2] eqn:E2;
        inversion E; subst; (etrans; [eapply walk_registry_grows, E1 | eapply IHl, E2]).
    + inversion E; subst. eapply walk_registry_grows, E1.
Qed.

(** A tree without functions is walked without a change. *)
Lemma walk_no_function (t : CallbackTree) :
  forall p G, firstLeaf t p = None -> exists c, walk t p G = (Ok c, G).
Proof.
  induction t as [f|entries IH|items IH|v] using CallbackTree_ind; intros p G H.
  - discriminate.
  - simpl in H. simpl.
    assert (Hl : exists cs, walkEntries walk p entries G = (Ok cs, G)).
    { induction IH as [|[key value] l Hv _ IHl]; simpl in *; [eauto |].
      destruct (firstLeaf value (childPath p key)) eqn:E; [discriminate |].
      destruct (Hv _ G E) as [c ->]. destruct (IHl H) as [cs ->]. eauto. }
    destruct Hl as [cs ->]. eauto.
  - simpl in H. simpl.
    assert (Hl : exists cs, walkItems walk p items 0 G = (Ok cs, G)).
    { revert H. generalize 0%nat.
      induction IH as [|value l Hv _ IHl]; intros i H; simpl in *; [eauto |].
      destruct (firstLeaf value (childPath p (indexKey i))) eqn:E; [discriminate |].
      destruct (Hv _ G E) as [c ->]. destruct (IHl _ H) as [cs ->]. eauto. }
    destruct Hl as [cs ->]. eauto.
  - simpl. eauto.
Qed.

(** After a walk that succeeded, the identifier of its first function is
    bound. *)
Lemma walk_first_bound (t : CallbackTree) :
  forall p G c G' leaf,
    firstLeaf t p = Some leaf -> walk t p G = (Ok c, G') ->
    is_Some (callbackRegistry G' !! hashAt leaf).
Proof.
  induction t as [f|entries IH|items IH|v] using CallbackTree_ind;
    intros p G c G' leaf Hfirst H.
  - simpl in *. inversion Hfirst; subst leaf. unfold hashAt. simpl.
    destruct (callbackRegistry G !! _) eqn:E; inversion H; subst.
    simpl. rewrite lookup_insert_eq. eauto.
  - simpl in *. destruct (walkEntries walk p entries G) as [[cs|e] G0] eqn:E;
      [| discriminate].
    assert (G0 = G') by congruence. subst G0. clear H c.
    revert G cs E. induction IH as [|[key value] l Hv _ IHl]; intros G cs E;
      simpl in *; [discriminate |].
    destruct (walk value (childPath p key) G) as [[c1|e] G1] eqn:E1; [| discriminate].
    destruct (walkEntries walk p l G1) as [[cs1|e] G2] eqn:E2; inversion E; subst.
    destruct (firstLeaf value (childPath p key)) as [leaf'|] eqn:Ef.
    + inversion Hfirst; subst leaf'.
      destruct (Hv _ _ _ _ _ Ef E1) as [g Hg]. exists g.
      assert (Hsub : callbackRegistry G1 ⊆ callbackRegistry G')
        by (eapply walkEntries_registry_grows, E2).
      eapply lookup_weaken; eassumption.
    + eapply IHl; eassumption.
  - simpl in *. destruct (walkItems walk p items 0 G) as [[cs|e] G0] eqn:E;
      [| discriminate].
    assert (G0 = G') by congruence. subst G0. clear H c.
    revert G cs E Hfirst. generalize 0%nat.
    induction IH as [|value l Hv _ IHl]; intros i G cs E Hfirst;
      simpl in *; [discriminate |].
    destruct (walk value (childPath p (indexKey i)) G) as [[c1|e] G1] eqn:E1;
      [| discriminate].
    destruct (walkItems walk p l (S i) G1) as [[cs1|e] G2] eqn:E2; inversion E; subst.
    destruct (firstLeaf value (childPath p (indexKey i))) as [leaf'|] eqn:Ef.
    + inversion Hfirst; subst leaf'.
      destruct (Hv _ _ _ _ _ Ef E1) as [g Hg]. exists g.
      assert (Hsub : callbackRegistry G1 ⊆ callbackRegistry G')
        by (eapply walkItems_registry_grows, E2).
      eapply lookup_weaken; eassumption.
    + eapply IHl; eassumption.
  - discriminate.
Qed.

(** When the identifier of its first function is bound already, the walk
    raises at that function and registers nothing. *)
Lemma walk_first_taken (t : CallbackTree) :
  forall p G leaf,
    firstLeaf t p = Some leaf -> is_Some (callbackRegistry G !! hashAt leaf) ->
    walk t p G
    = (Throw (Error ("Callback with hash " ++ hashAt leaf ++ " already registered")), G).
Proof.
  induction t as [f|entries IH|items IH|v] using CallbackTree_ind;
    intros p G leaf Hfirst [g Hg].
  - simpl in *. inversion Hfirst; subst leaf. unfold hashAt in *. simpl in *.
    now rewrite Hg.
  - simpl in *.
    assert (Hl : walkEntries walk p entries G
                 = (Throw (Error ("Callback with hash " ++ hashAt leaf ++ " already registered")), G)).
    { induction IH as [|[key value] l Hv _ IHl]; simpl in *; [discriminate |].
      destruct (firstLeaf value (childPath p key)) as [leaf'|] eqn:Ef.
      - inversion Hfirst; subst leaf'. now rewrite (Hv _ G _ Ef (ex_intro _ g Hg)).
      - destruct (walk_no_function value _ G Ef) as [c ->]. now rewrite (IHl Hfirst). }
    now rewrite Hl.
  - simpl in *.
    assert (Hl : walkItems walk p items 0 G
                 = (Throw (Error ("Callback with hash " ++ hashAt leaf ++ " already registered")), G)).
    { revert Hfirst. generalize 0%nat.
      induction IH as [|value l Hv _ IHl]; intros i Hfirst; simpl in *; [discriminate |].
      destruct (firstLeaf value (childPath p (indexKey i))) as [leaf'|] eqn:Ef.
      - inversion Hfirst; subst leaf'. now rewrite (Hv _ G _ Ef (ex_intro _ g Hg)).
      - destruct (walk_no_function value _ G Ef) as [c ->]. now rewrite (IHl _ Hfirst). }
    now rewrite Hl.
  - discriminate.
Qed.

(** [cbs] on a tree it has registered raises at the first function. *)
Lemma cbs_twice (t : CallbackTree) (G G1 : Globals) (c : CurriedTree)
    (leaf : Function * string) :
  firstLeaf t EmptyString = Some leaf -> cbs t G = (Ok c, G1) ->
  cbs t G1
  = (Throw (Error ("Callback with hash " ++ hashAt leaf ++ " already registered")), G1).
Proof.
  intros Hfirst H. unfold cbs in *.
  apply walk_first_taken; [exact Hfirst |].
  eapply walk_first_bound; eassumption.
Qed.

(** [cb] on a function it has registered changes nothing. *)
Lemma cb_twice (f : Function) (G : Globals) : cb f (snd (cb f G)) = cb f G.
Proof.
  unfold cb, register. simpl. f_equal. f_equal; apply insert_insert_eq.
Qed.

End Trees.

(** C2, as the code has it. The identifier depends on the name and the
    source of a function, or on its path and name. [cb] never raises:
    registering a function it has registered changes nothing. [cbs] raises
    at the first function whose identifier is bound, whoever holds it, and so
    also when it is given a tree it has registered. *)
Theorem registration_of_bound_identifiers (G : Globals) (f : Function) (t : CallbackTree) :
  (forall g, fn_name f = fn_name g -> fn_source f = fn_source g ->
             calculateFunctionHash f = calculateFunctionHash g)
  /\ (forall g path, fn_name f = fn_name g ->
                     calculateFunctionHashWithPath f path = calculateFunctionHashWithPath g path)
  /\ cb f (snd (cb f G)) = cb f G
  /\ bound (snd (cb f G)) f (calculateFunctionHash f)
  /\ (forall p leaf,
        firstLeaf t p = Some leaf -> is_Some (callbackRegistry G !! hashAt leaf) ->
        walk t p G = (Throw (alreadyRegistered (hashAt leaf)), G))
  /\ (forall c G1 leaf,
        firstLeaf t EmptyString = Some leaf -> cbs t G = (Ok c, G1) ->
        cbs t G1 = (Throw (alreadyRegistered (hashAt leaf)), G1)).
Proof.
  split; [| split; [| split; [| split; [| split]]]].
  - intros g Hn Hs. unfold calculateFunctionHash. now rewrite Hn, Hs.
  - intros g path Hn. unfold calculateFunctionHashWithPath. now rewrite Hn.
  - apply cb_twice.
  - apply cb_bound.
  - intros p leaf. apply walk_first_taken.
  - intros c G1 leaf. apply cbs_twice.
Qed.

Lemma registration_of_bound_identifiers_witness :
  cb greet (snd (cb greet noGlobals)) = cb greet noGlobals
  /\ cbs shop (snd (cbs shop noGlobals))
     = (Throw (alreadyRegistered (hashAt (greet, "shop.open"))), snd (cbs shop noGlobals)).
Proof.
  destruct (registration_of_bound_identifiers noGlobals greet shop)
    as (_ & _ & Hcb & _ & _ & Hcbs).
  split; [exact Hcb |].
  eapply Hcbs.
  - reflexivity.
  - vm_compute. reflexivity.
Defined.

(** C2 as stated fails on both sides. [cbs] on the tree it has registered
    raises, where the specification has no error; [cb] on a second closure
    of one source text rebinds the identifier without an error, where the
    specification has one. *)
Lemma registration_guard_mismatch :
  fst (cbs shop (snd (cbs shop noGlobals)))
  = Throw (Error "Callback with hash shop.open238a4a338cc already registered")
  /\ calculateFunctionHash sayYes = calculateFunctionHash sayNo
  /\ callbackRegistry (snd (cb sayYes noGlobals)) !! calculateFunctionHash sayYes
     = Some sayYes
  /\ callbackRegistry (snd (cb sayNo (snd (cb sayYes noGlobals)))) !! calculateFunctionHash sayYes
     = Some sayNo.
Proof. repeat split; vm_compute; reflexivity. Qed.

(** * Further properties of the code *)

(** ** Curried callbacks *)

(** X1. Partial application is associative: binding [A1] and then calling
    with [A2] is calling with [A1 ++ A2], whether the second call executes
    (a context comes first) or binds again; the callback bound in two steps
    is the one bound in one step, so both render the same token. *)
Theorem curry_associative (G : Globals) (c c1 : CurriedCallback) (ctx : Context)
    (A1 A2 : list JsValue) (w0 w : World) :
  callCurried G c None A1 w0 = Accumulated c1 ->
  callCurried G c1 (Some ctx) A2 w = callCurried G c (Some ctx) (A1 ++ A2)%list w
  /\ callCurried G c1 None A2 w = callCurried G c None (A1 ++ A2)%list w.
Proof.
  intros H. unfold callCurried in *. inversion H; subst c1; clear H. simpl.
  assert (E : match cc_params c with
              | Some ps => ((ps ++ A1) ++ A2)%list
              | None => (A1 ++ A2)%list
              end
              = match cc_params c with
                | Some ps => (ps ++ A1 ++ A2)%list
                | None => (A1 ++ A2)%list
                end).
  { destruct (cc_params c); [now rewrite <- app_assoc | reflexivity]. }
  destruct (cc_params c) as [ps|]; simpl in *; rewrite ?E; split; reflexivity.
Qed.

Lemma curry_associative_witness :
  let G := snd (cb greet noGlobals) in
  let c := createCurried greet (Some [VBool true]) in
  let c1 := createCurried greet (Some [VBool true; VStr "Ann"]) in
  callCurried G c1 (Some (buttonUpdate "x")) [VNum 7] initialWorld
  = callCurried G c (Some (buttonUpdate "x")) [VStr "Ann"; VNum 7] initialWorld
  /\ callCurried G c1 None [VNum 7] initialWorld
     = callCurried G c None [VStr "Ann"; VNum 7] initialWorld.
Proof.
  intros G c c1.
  apply (curry_associative G c c1 (buttonUpdate "x") [VStr "Ann"] [VNum 7]
           initialWorld initialWorld).
  reflexivity.
Defined.

(** X2. A direct call [c(ctx, ...extra)] and the execution of the token of
    [c] with the same extra arguments make the same call of the handler; the
    direct call alone first writes the identifier to [lastHash]. *)
Theorem direct_call_and_token (G : Globals) (h : Function) (id : string)
    (ctx : Context) (A extra : list JsValue) (w : World) :
  bound G h id -> noColon id = true -> JSON.safe (VArr A) = true ->
  callCurried G (createCurried h (Some A)) (Some ctx) extra w
  = Executed (invoke h ctx (A ++ extra)%list (setSession (setLastHash (Some id)) w))
  /\ executeCallback G ctx (toCallbackData G (createCurried h (Some A))) extra w
     = invoke h ctx (A ++ extra)%list w.
Proof.
  intros Hbound Hid Hsafe. split.
  - unfold callCurried, originHash. simpl. destruct Hbound as [-> _]. reflexivity.
  - now apply (executeCallback_direct G h id).
Qed.

Lemma direct_call_and_token_witness :
  let G := snd (cb greet noGlobals) in
  let ctx := buttonUpdate "x" in
  callCurried G (createCurried greet (Some [VStr "Ann"])) (Some ctx) [VNum 7] initialWorld
  = Executed (invoke greet ctx [VStr "Ann"; VNum 7]
                (setSession (setLastHash (Some "greet6302688")) initialWorld))
  /\ executeCallback G ctx (toCallbackData G (createCurried greet (Some [VStr "Ann"])))
       [VNum 7] initialWorld
     = invoke greet ctx [VStr "Ann"; VNum 7] initialWorld.
Proof.
  intros G ctx.
  apply (direct_call_and_token G greet "greet6302688" ctx [VStr "Ann"] [VNum 7] initialWorld).
  - split; vm_compute; reflexivity.
  - vm_compute. reflexivity.
  - vm_compute. reflexivity.
Defined.

(** ** Token codec *)

(** X3. A token is cut at its first two colons only. With a well-shaped
    prefix and a key without colon, [prefix:key:rest] gives back [rest] as it
    is, whatever colons it holds, and [undefined] when it is empty;
    [prefix:key] gives [undefined] too. *)
Theorem splitCallbackData_keeps_remainder (prefix key rest : string) :
  prefixShape prefix -> noColon prefix = true -> noColon key = true ->
  splitCallbackData (prefix ++ String colon (key ++ String colon rest))
  = Ok (prefix, key, match rest with EmptyString => None | _ => Some rest end)
  /\ splitCallbackData (prefix ++ String colon key) = Ok (prefix, key, None).
Proof.
  intros Hp Hpc Hk. split.
  - rewrite (splitCallbackData_three_parts prefix key Hp Hpc Hk).
    destruct rest; reflexivity.
  - apply (splitCallbackData_two_parts prefix key Hp Hpc Hk).
Qed.

Lemma splitCallbackData_keeps_remainder_witness :
  splitCallbackData ("_xy" ++ String colon ("key" ++ String colon "a:b::c"))
  = Ok ("_xy", "key", Some "a:b::c")
  /\ splitCallbackData ("_xy" ++ String colon "key") = Ok ("_xy", "key", None).
Proof.
  apply (splitCallbackData_keeps_remainder "_xy" "key" "a:b::c").
  - split; [reflexivity | now exists "xy"].
  - reflexivity.
  - reflexivity.
Defined.

Section Gate.

Lemma prefix_four (a b c d : ascii) (s : string) :
  String.prefix (String a (String b (String c (String d EmptyString)))) s = true ->
  exists t, s = String a (String b (String c (String d t))).
Proof.
  destruct s as [|a' [|b' [|c' [|d' t]]]]; simpl;
    repeat match goal with
           | |- context [ascii_dec ?x ?y] => destruct (ascii_dec x y); try discriminate
           end; try discriminate.
  intros _. subst. now exists t.
Qed.

Lemma split_tagged (b c : ascii) (t : string) :
  Ascii.eqb b colon = false -> Ascii.eqb c colon = false ->
  exists rest,
    splitCallbackData (String "_" (String b (String c (String colon t))))
    = Ok (String "_" (String b (String c EmptyString)), beforeColon t, rest).
Proof.
  intros Hb Hc. unfold splitCallbackData, JsString.splitLimit.
  pose proof (split_head t) as Hhead.
  simpl JsString.split. rewrite Hb, Hc. simpl.
  destruct (JsString.split colon t) as [|p ps]; [discriminate |].
  simpl in Hhead. inversion Hhead; subst p. simpl. eauto.
Qed.

Lemma toCallbackData_gate (G : Globals) (c : CurriedCallback) :
  isCallbackData (Some (toCallbackData G c)) = true.
Proof.
  unfold toCallbackData.
  destruct (cc_params c) as [[|x l]|]; unfold isCallbackData, JsString.startsWith;
    simpl; repeat (destruct (ascii_dec _ _); [| congruence]);
    now destruct (default "undefined" (originHash G (origin c))).
Qed.

End Gate.

(** X4. Data the dispatcher's gate [isCallbackData] lets through never makes
    [splitCallbackData] raise: it splits into the prefix [_cb] or [_ch] and
    a key without colon. Every token [toCallbackData] renders passes the
    gate. *)
Theorem callback_data_gate (data : string) :
  isCallbackData (Some data) = true ->
  (exists p key rest,
      splitCallbackData data = Ok (p, key, rest)
      /\ (p = "_cb" \/ p = "_ch") /\ noColon key = true)
  /\ forall G c, isCallbackData (Some (toCallbackData G c)) = true.
Proof.
  intros H. split.
  - unfold isCallbackData, JsString.startsWith in H.
    apply orb_prop in H as [H | H]; apply prefix_four in H as [t ->].
    + destruct (split_tagged "c" "b" t eq_refl eq_refl) as [rest E].
      exists "_cb", (beforeColon t), rest.
      split; [exact E | split; [now left | apply beforeColon_no_colon]].
    + destruct (split_tagged "c" "h" t eq_refl eq_refl) as [rest E].
      exists "_ch", (beforeColon t), rest.
      split; [exact E | split; [now right | apply beforeColon_no_colon]].
  - apply toCallbackData_gate.
Qed.

Lemma callback_data_gate_witness :
  (exists p key rest,
      splitCallbackData "_ch:0123abcd:junk" = Ok (p, key, rest)
      /\ (p = "_cb" \/ p = "_ch") /\ noColon key = true)
  /\ forall G c, isCallbackData (Some (toCallbackData G c)) = true.
Proof. apply (callback_data_gate "_ch:0123abcd:junk"). reflexivity. Defined.

(** ** Execution of tokens *)

Section Tokens.

Variable G : Globals.
Variables (h : Function) (id : string).
Hypothesis Hreg : callbackRegistry G !! id = Some h.

Lemma parseParams_stringify (v : JsValue) :
  JSON.safe v = true -> parseParams (Some (JSON.stringify v)) = spread v.
Proof.
  intros Hsafe. unfold parseParams.
  destruct (stringify_head v) as (c & t & E & _).
  rewrite E. simpl JsString.truthy. cbv iota.
  now rewrite <- E, parse_stringify.
Qed.

Lemma orUndefined_stringify (v : JsValue) :
  JsString.orUndefined (JSON.stringify v) = Some (JSON.stringify v).
Proof. destruct (stringify_head v) as (c & t & -> & _). reflexivity. Qed.

Lemma executeCallback_token (v : JsValue) (ctx : Context) (extra : list JsValue) (w : World) :
  noColon id = true -> JSON.safe v = true ->
  executeCallback G ctx ("_cb" ++ String colon (id ++ String colon (JSON.stringify v))) extra w
  = match spread v with
    | Ok ps => invoke h ctx (ps ++ extra)%list w
    | Throw e => (Throw e, w)
    end.
Proof.
  intros Hid Hsafe. unfold executeCallback, getProperty.
  rewrite splitCallbackData_three_parts by (reflexivity || auto using cb_prefix_shape).
  simpl String.eqb. cbv iota. rewrite Hreg, orUndefined_stringify.
  now rewrite parseParams_stringify.
Qed.


End Tokens.



(** X6. When the third part of a token is the JSON text of a value, as
    [JSON.stringify] writes it for a value JSON carries (numbers being
    integers), the value is spread: an array gives its elements, a string
    its characters one by one, and a number, a boolean, [null] or an object
    raises a [TypeError] before the handler is called, leaving the session
    as it was. Extra arguments follow the spread ones. *)
Theorem executeCallback_spreads (G : Globals) (h : Function) (id : string) (v : JsValue)
    (ctx : Context) (extra : list JsValue) (w : World) :
  callbackRegistry G !! id = Some h -> noColon id = true -> JSON.safe v = true ->
  let run := executeCallback G ctx ("_cb:" ++ id ++ ":" ++ JSON.stringify v) extra w in
  match v with
  | VArr items => run = invoke h ctx (items ++ extra)%list w
  | VStr s =>
      run = invoke h ctx
              (map (fun c => VStr (String c EmptyString)) (JsString.chars s) ++ extra)%list w
  | _ => exists msg, run = (Throw (TypeError msg), w)
  end.
Proof.
  intros Hreg Hid Hsafe run. unfold run.
  change ("_cb:" ++ id ++ ":" ++ JSON.stringify v)
    with ("_cb" ++ String colon (id ++ String colon (JSON.stringify v))).
  rewrite (executeCallback_token G h id Hreg v ctx extra w Hid Hsafe).
  destruct v; simpl; eauto.
Qed.

Lemma executeCallback_spreads_witness :
  let G := snd (cb greet noGlobals) in
  let ctx := buttonUpdate "x" in
  (exists msg,
      executeCallback G ctx ("_cb:" ++ "greet6302688" ++ ":" ++ JSON.stringify (VNum 5)) []
        initialWorld
      = (Throw (TypeError msg), initialWorld))
  /\ executeCallback G ctx ("_cb:" ++ "greet6302688" ++ ":" ++ JSON.stringify (VStr "ab")) []
       initialWorld
     = invoke greet ctx [VStr "a"; VStr "b"] initialWorld.
Proof.
  intros G ctx. split.
  - apply (executeCallback_spreads G greet "greet6302688" (VNum 5) ctx [] initialWorld);
      vm_compute; reflexivity.
  - apply (executeCallback_spreads G greet "greet6302688" (VStr "ab") ctx [] initialWorld);
      vm_compute; reflexivity.
Defined.



(** ** Registration with [cb] *)

(** X8. A function whose name holds no colon, registered with [cb], makes
    the full round trip for arguments JSON carries, whatever else is
    registered: the token of [cb(h)(A)], executed with extra arguments,
    calls [h] with the context, [A] and then the extra arguments. *)
Theorem cb_round_trip (G : Globals) (h : Function) (c : CurriedCallback) (ctx : Context)
    (A extra : list JsValue) (w0 w : World) :
  noColon (fn_name h) = true -> JSON.safe (VArr A) = true ->
  callCurried (snd (cb h G)) (fst (cb h G)) None A w0 = Accumulated c ->
  executeCallback (snd (cb h G)) ctx (toCallbackData (snd (cb h G)) c) extra w
  = invoke h ctx (A ++ extra)%list w.
Proof.
  intros Hname Hsafe Hc. simpl in Hc. inversion Hc; subst c; clear Hc.
  apply (executeCallback_direct (snd (cb h G)) h (calculateFunctionHash h)).
  - apply cb_bound.
  - now apply calculateFunctionHash_no_colon.
  - exact Hsafe.
Qed.

Lemma cb_round_trip_witness :
  let G' := snd (cb retry noGlobals) in
  executeCallback G' (buttonUpdate "x")
    (toCallbackData G' (createCurried retry (Some [VNum 3]))) [VBool true] initialWorld
  = invoke retry (buttonUpdate "x") [VNum 3; VBool true] initialWorld.
Proof.
  apply (cb_round_trip noGlobals retry (createCurried retry (Some [VNum 3]))
           (buttonUpdate "x") [VNum 3] [VBool true] initialWorld initialWorld).
  - vm_compute. reflexivity.
  - vm_compute. reflexivity.
  - reflexivity.
Defined.



(** ** Session references ([storeCallbackData]) *)

Section References.

Lemma setParams_twice (k : string) (e : SessionParams) (w : World) :
  setSession (setParams k e) (setSession (setParams k e) w) = setSession (setParams k e) w.
Proof.
  unfold setSession, setParams. simpl. f_equal. f_equal. apply insert_insert_eq.
Qed.

Lemma reference_gate (key : string) : isCallbackData (Some ("_ch:" ++ key)) = true.
Proof.
  unfold isCallbackData, JsString.startsWith. simpl.
  repeat (destruct (ascii_dec _ _); [| congruence]).
  destruct key; reflexivity.
Qed.

Lemma reference_split (key : string) :
  noColon key = true -> splitCallbackData ("_ch:" ++ key) = Ok ("_ch", key, None).
Proof.
  intros Hkey. change ("_ch:" ++ key) with ("_ch" ++ String colon key).
  apply splitCallbackData_two_parts; (reflexivity || auto using ch_prefix_shape).
Qed.

End References.

(** X10. For a token with arguments, [storeCallbackData] returns a
    reference of twelve characters, [_ch:] and eight digits, which the
    dispatcher's gate accepts. Storing the same token again, or storing the
    reference itself, gives the same reference back and changes the session
    no more; nothing but the [params] table is ever written. *)
Theorem storeCallbackData_reference (cbData p id json : string) (w : World) :
  splitCallbackData cbData = Ok (p, id, Some json) ->
  exists ref w1,
    storeCallbackData cbData w = (Ok ref, w1)
    /\ String.length ref = 12%nat
    /\ isCallbackData (Some ref) = true
    /\ storeCallbackData cbData w1 = (Ok ref, w1)
    /\ storeCallbackData ref w1 = (Ok ref, w1)
    /\ reply (session w1) = reply (session w)
    /\ wait_ (session w1) = wait_ (session w)
    /\ lastHash (session w1) = lastHash (session w)
    /\ trace w1 = trace w.
Proof.
  intros Hsplit. eexists _, _.
  split; [apply (storeCallbackData_args _ _ _ _ _ Hsplit) |].
  split; [simpl; f_equal; f_equal; f_equal; f_equal; apply generateHash_shape |].
  split; [apply reference_gate |].
  split; [rewrite (storeCallbackData_args _ _ _ _ _ Hsplit); now rewrite setParams_twice |].
  split; [| repeat split].
  apply (storeCallbackData_no_args _ "_ch" (generateHash json)).
  apply reference_split, generateHash_no_colon.
Qed.

Lemma storeCallbackData_reference_witness :
  exists ref w1,
    storeCallbackData "_cb:greet6302688:[1,2]" initialWorld = (Ok ref, w1)
    /\ String.length ref = 12%nat
    /\ isCallbackData (Some ref) = true
    /\ storeCallbackData "_cb:greet6302688:[1,2]" w1 = (Ok ref, w1)
    /\ storeCallbackData ref w1 = (Ok ref, w1)
    /\ reply (session w1) = reply (session initialWorld)
    /\ wait_ (session w1) = wait_ (session initialWorld)
    /\ lastHash (session w1) = lastHash (session initialWorld)
    /\ trace w1 = trace initialWorld.
Proof.
  apply (storeCallbackData_reference "_cb:greet6302688:[1,2]" "_cb" "greet6302688" "[1,2]").
  vm_compute. reflexivity.
Defined.



(** ** Registration of trees ([cbs]) *)

Section Leaves.

Lemma registerLeaves_app (l1 l2 : list (Function * string)) :
  forall G,
    registerLeaves (l1 ++ l2)%list G
    = match registerLeaves l1 G with
      | (None, G1) => registerLeaves l2 G1
      | (Some e, G1) => (Some e, G1)
      end.
Proof.
  induction l1 as [|x l1 IH]; intros G; simpl; [reflexivity |].
  destruct (callbackRegistry G !! hashAt x); [reflexivity | apply IH].
Qed.

(** [walk] registers the functions of the tree in the order of [leaves],
    and returns the tree of their curried callbacks. *)
Lemma walk_flatten (t : CallbackTree) :
  forall p G,
    registerLeaves (leaves t p) G = (errorOf (fst (walk t p G)), snd (walk t p G))
    /\ forall c, fst (walk t p G) = Ok c -> c = curriedOf t.
Proof.
  induction t as [f|entries IH|items IH|v] using CallbackTree_ind; intros p G.
  - simpl. unfold hashAt. simpl.
    destruct (callbackRegistry G !! _); simpl; split; try reflexivity;
      intros c H; now inversion H.
  - assert (Hl : forall G,
               registerLeaves (leavesOfEntries leaves p entries) G
               = (errorOf (fst (walkEntries walk p entries G)),
                  snd (walkEntries walk p entries G))
               /\ forall cs, fst (walkEntries walk p entries G) = Ok cs ->
                             cs = curriedEntries curriedOf entries).
    { clear G. induction IH as [|[key value] l Hv _ IHl]; intros G; simpl.
      - split; [reflexivity | intros cs H; now inversion H].
      - simpl in Hv. destruct (Hv (childPath p key) G) as [Hr Hc].
        rewrite registerLeaves_app, Hr.
        destruct (walk value (childPath p key) G) as [[c|e] G1]; simpl in *.
        + destruct (IHl G1) as [Hr' Hc']. rewrite Hr'.
          destruct (walkEntries walk p l G1) as [[cs|e] G2]; simpl in *.
          * split; [reflexivity |]. intros cs0 H. inversion H.
            now rewrite (Hc c eq_refl), (Hc' cs eq_refl).
          * split; [reflexivity | discriminate].
        + split; [reflexivity | discriminate]. }
    simpl. destruct (Hl G) as [Hr Hc]. rewrite Hr.
    destruct (walkEntries walk p entries G) as [[cs|e] G0]; simpl in *.
    + split; [reflexivity |]. intros c H. inversion H. now rewrite (Hc cs eq_refl).
    + split; [reflexivity | discriminate].
  - assert (Hl : forall i G,
               registerLeaves (leavesOfItems leaves p items i) G
               = (errorOf (fst (walkItems walk p items i G)),
                  snd (walkItems walk p items i G))
               /\ forall cs, fst (walkItems walk p items i G) = Ok cs ->
                             cs = map curriedOf items).
    { clear G. induction IH as [|value l Hv _ IHl]; intros i G; simpl.
      - split; [reflexivity | intros cs H; now inversion H].
      - destruct (Hv (childPath p (indexKey i)) G) as [Hr Hc].
        rewrite registerLeaves_app, Hr.
        destruct (walk value (childPath p (indexKey i)) G) as [[c|e] G1]; simpl in *.
        + destruct (IHl (S i) G1) as [Hr' Hc']. rewrite Hr'.
          destruct (walkItems walk p l (S i) G1) as [[cs|e] G2]; simpl in *.
          * split; [reflexivity |]. intros cs0 H. inversion H.
            now rewrite (Hc c eq_refl), (Hc' cs eq_refl).
          * split; [reflexivity | discriminate].
        + split; [reflexivity | discriminate]. }
    simpl. destruct (Hl 0%nat G) as [Hr Hc]. rewrite Hr.
    destruct (walkItems walk p items 0 G) as [[cs|e] G0]; simpl in *.
    + split; [reflexivity |]. intros c H. inversion H. now rewrite (Hc cs eq_refl).
    + split; [reflexivity | discriminate].
  - simpl. split; [reflexivity | intros c H; now inversion H].
Qed.

Lemma cbs_flatten (t : CallbackTree) (G : Globals) :
  registerLeaves (leaves t EmptyString) G = (errorOf (fst (cbs t G)), snd (cbs t G)).
Proof. apply walk_flatten. Qed.

Lemma registerLeaves_grows (l : list (Function * string)) :
  forall G e G', registerLeaves l G = (e, G') -> callbackRegistry G ⊆ callbackRegistry G'.
Proof.
  induction l as [|x l IH]; intros G e G' H; simpl in H.
  - now inversion H.
  - destruct (callbackRegistry G !! hashAt x) eqn:E.
    + now inversion H.
    + etrans; [| eapply IH, H]. simpl. now apply insert_subseteq.
Qed.

Lemma registerLeaves_other (l : list (Function * string)) :
  forall G e G' id,
    registerLeaves l G = (e, G') -> id ∉ map hashAt l ->
    callbackRegistry G' !! id = callbackRegistry G !! id.
Proof.
  induction l as [|x l IH]; intros G e G' id H Hid; simpl in H.
  - now inversion H.
  - simpl in Hid. apply not_elem_of_cons in Hid as [Hx Hl].
    destruct (callbackRegistry G !! hashAt x) eqn:E.
    + now inversion H.
    + rewrite (IH _ _ _ _ H Hl). simpl. now rewrite lookup_insert_ne.
Qed.

Lemma registerLeaves_fnHash_other (l : list (Function * string)) :
  forall G e G' r,
    registerLeaves l G = (e, G') -> Forall (fun x => fn_ref (fst x) <> r) l ->
    fnHash G' !! r = fnHash G !! r.
Proof.
  induction l as [|x l IH]; intros G e G' r H Hr; simpl in H.
  - now inversion H.
  - inversion Hr as [|? ? Hx Hl]; subst.
    destruct (callbackRegistry G !! hashAt x) eqn:E.
    + now inversion H.
    + rewrite (IH _ _ _ _ H Hl). simpl. now rewrite lookup_insert_ne.
Qed.

Lemma registerLeaves_bound (l : list (Function * string)) :
  forall G e G' leaf,
    registerLeaves l G = (e, G') -> e = None -> leaf ∈ l ->
    callbackRegistry G' !! hashAt leaf = Some (fst leaf).
Proof.
  induction l as [|x l IH]; intros G e G' leaf H He Hin; simpl in H.
  - now apply elem_of_nil in Hin.
  - destruct (callbackRegistry G !! hashAt x) eqn:E.
    + inversion H; subst. discriminate.
    + apply elem_of_cons in Hin as [-> | Hin].
      * eapply lookup_weaken; [| eapply registerLeaves_grows, H].
        simpl. apply lookup_insert_eq.
      * eapply IH; eassumption.
Qed.

Lemma registerLeaves_ok (l : list (Function * string)) :
  forall G,
    fst (registerLeaves l G) = None
    <-> NoDup (map hashAt l)
        /\ Forall (fun leaf => callbackRegistry G !! hashAt leaf = None) l.
Proof.
  induction l as [|x l IH]; intros G; simpl.
  - split; [intros _; split; constructor | reflexivity].
  - destruct (callbackRegistry G !! hashAt x) eqn:E; simpl.
    + split; [discriminate |]. intros [_ H]. inversion H; congruence.
    + rewrite IH. rewrite NoDup_cons. simpl. split.
      * intros [Hnd Hall]. split; [split; [| exact Hnd] |].
        -- intros Hin. apply list_elem_of_fmap in Hin as (y & Hy & Hin).
           rewrite Forall_forall in Hall. specialize (Hall y Hin).
           rewrite Hy in Hall. now rewrite lookup_insert_eq in Hall.
        -- constructor; [exact E |].
           eapply Forall_impl; [exact Hall |]. intros y Hy. simpl in Hy.
           apply lookup_insert_None in Hy. tauto.
      * intros [[Hx Hnd] Hall]. split; [exact Hnd |].
        inversion Hall as [|? ? _ Hall']; subst.
        rewrite Forall_forall in Hall'. apply Forall_forall. intros y Hin.
        apply lookup_insert_None. split; [now apply Hall' |].
        intros Heq. apply Hx. rewrite Heq. apply list_elem_of_fmap. eauto.
Qed.

Lemma registerLeaves_split (l1 l2 : list (Function * string))
    (leaf : Function * string) (G G' : Globals) :
  registerLeaves (l1 ++ leaf :: l2)%list G = (None, G') ->
  exists G1,
    registerLeaves l1 G = (None, G1)
    /\ callbackRegistry G1 !! hashAt leaf = None
    /\ registerLeaves l2 (register (hashAt leaf) (fst leaf) G1) = (None, G').
Proof.
  rewrite registerLeaves_app. destruct (registerLeaves l1 G) as [[e|] G1]; [discriminate |].
  simpl. destruct (callbackRegistry G1 !! hashAt leaf) eqn:E; [discriminate |].
  intros H. exists G1. auto.
Qed.

Lemma cbs_ok_leaves (t : CallbackTree) (G G' : Globals) (c : CurriedTree) :
  cbs t G = (Ok c, G') -> registerLeaves (leaves t EmptyString) G = (None, G').
Proof. intros H. rewrite cbs_flatten, H. reflexivity. Qed.

(** A function of a registered tree, at the last place the tree holds it, is
    bound to the identifier of that place. *)
Lemma cbs_leaf_bound (t : CallbackTree) (G G' : Globals) (c : CurriedTree)
    (l1 l2 : list (Function * string)) (leaf : Function * string) :
  cbs t G = (Ok c, G') ->
  leaves t EmptyString = (l1 ++ leaf :: l2)%list ->
  Forall (fun x => fn_ref (fst x) <> fn_ref (fst leaf)) l2 ->
  bound G' (fst leaf) (hashAt leaf).
Proof.
  intros H Hl Hlast. apply cbs_ok_leaves in H. split.
  - rewrite Hl in H. apply registerLeaves_split in H as (G1 & _ & _ & H2).
    rewrite (registerLeaves_fnHash_other _ _ _ _ _ H2 Hlast). simpl.
    apply lookup_insert_eq.
  - apply (registerLeaves_bound _ _ _ _ leaf H eq_refl).
    rewrite Hl. apply elem_of_app. right. apply elem_of_cons. now left.
Qed.

End Leaves.



(** X13. [cbs] returns exactly when the identifiers of the functions of the
    tree are pairwise distinct and none of them is in the registry; in every
    other case it raises. *)
Theorem cbs_succeeds_iff (t : CallbackTree) (G : Globals) :
  (exists c G', cbs t G = (Ok c, G'))
  <-> NoDup (map hashAt (leaves t EmptyString))
      /\ Forall (fun leaf => callbackRegistry G !! hashAt leaf = None) (leaves t EmptyString).
Proof.
  rewrite <- registerLeaves_ok, cbs_flatten. simpl.
  destruct (cbs t G) as [[c|e] G']; simpl; split.
  - reflexivity.
  - eauto.
  - intros (c & G0 & H). discriminate.
  - discriminate.
Qed.

(** X14. [cbs] does not roll back. When the functions before a place of the
    tree have distinct free identifiers and the identifier of that place is
    taken, [cbs] raises naming it, and the functions before it stay
    registered; nothing else of the registry changes. *)
Theorem cbs_no_rollback (t : CallbackTree) (G : Globals)
    (l1 l2 : list (Function * string)) (leaf : Function * string) :
  leaves t EmptyString = (l1 ++ leaf :: l2)%list ->
  NoDup (map hashAt l1) ->
  Forall (fun x => callbackRegistry G !! hashAt x = None) l1 ->
  is_Some (callbackRegistry G !! hashAt leaf) \/ hashAt leaf ∈ map hashAt l1 ->
  exists G',
    cbs t G = (Throw (alreadyRegistered (hashAt leaf)), G')
    /\ (forall x, x ∈ l1 -> callbackRegistry G' !! hashAt x = Some (fst x))
    /\ (forall id, id ∉ map hashAt l1 ->
                   callbackRegistry G' !! id = callbackRegistry G !! id).
Proof.
  intros Hl Hnd Hfree Htaken.
  pose proof (proj2 (registerLeaves_ok l1 G) (conj Hnd Hfree)) as Hok.
  destruct (registerLeaves l1 G) as [e1 G1] eqn:E1. simpl in Hok. subst e1.
  assert (Hleaf : is_Some (callbackRegistry G1 !! hashAt leaf)).
  { destruct Htaken as [[g Hg] | Hin].
    - exists g. eapply lookup_weaken; [exact Hg | eapply registerLeaves_grows, E1].
    - apply list_elem_of_fmap in Hin as (y & Hy & Hin). rewrite Hy.
      rewrite (registerLeaves_bound _ _ _ _ y E1 eq_refl Hin). eauto. }
  pose proof (cbs_flatten t G) as Hf. rewrite Hl, registerLeaves_app, E1 in Hf.
  simpl in Hf. destruct Hleaf as [g Hg]. rewrite Hg in Hf.
  exists G1. destruct (cbs t G) as [[c|e] G']; simpl in Hf; [discriminate |].
  inversion Hf; subst. split; [reflexivity | split].
  - intros x Hin. now apply (registerLeaves_bound _ _ _ _ x E1 eq_refl).
  - intros id Hid. now apply (registerLeaves_other _ _ _ _ _ E1).
Qed.

Lemma cbs_no_rollback_witness :
  let G := snd (cbs (TObj [("close", TFn retry)]) noGlobals) in
  let t := TObj [("open", TFn greet); ("close", TFn retry); ("edit", TFn editUser)] in
  exists G',
    cbs t G = (Throw (alreadyRegistered (hashAt (retry, "close"))), G')
    /\ (forall x, x ∈ [(greet, "open")] -> callbackRegistry G' !! hashAt x = Some (fst x))
    /\ (forall id, id ∉ map hashAt [(greet, "open")] ->
                   callbackRegistry G' !! id = callbackRegistry G !! id).
Proof.
  intros G t.
  apply (cbs_no_rollback t G [(greet, "open")] [(editUser, "edit")] (retry, "close")).
  - reflexivity.
  - apply NoDup_singleton.
  - constructor; [vm_compute; reflexivity | constructor].
  - left. vm_compute. eauto.
Defined.

(** X15. Take a function of a tree registered with [cbs] at the last place
    the tree holds it, and let the identifier of that place hold no colon
    and the arguments [A] be ones JSON carries. Then the function is bound
    to that identifier, and the token of its curried callback with [A] calls
    it with the context, [A] and the extra arguments. *)
Theorem cbs_round_trip (t : CallbackTree) (G G' : Globals) (c : CurriedTree)
    (l1 l2 : list (Function * string)) (leaf : Function * string)
    (ctx : Context) (A extra : list JsValue) (w : World) :
  cbs t G = (Ok c, G') ->
  leaves t EmptyString = (l1 ++ leaf :: l2)%list ->
  Forall (fun x => fn_ref (fst x) <> fn_ref (fst leaf)) l2 ->
  noColon (hashAt leaf) = true -> JSON.safe (VArr A) = true ->
  bound G' (fst leaf) (hashAt leaf)
  /\ executeCallback G' ctx (toCallbackData G' (createCurried (fst leaf) (Some A))) extra w
     = invoke (fst leaf) ctx (A ++ extra)%list w.
Proof.
  intros H Hl Hlast Hcolon Hsafe.
  pose proof (cbs_leaf_bound t G G' c l1 l2 leaf H Hl Hlast) as Hb.
  split; [exact Hb |].
  now apply (executeCallback_direct G' (fst leaf) (hashAt leaf)).
Qed.

Lemma cbs_round_trip_witness :
  let G' := snd (cbs shop noGlobals) in
  bound G' retry (hashAt (retry, "shop.close"))
  /\ executeCallback G' (buttonUpdate "x")
       (toCallbackData G' (createCurried retry (Some [VNum 4]))) [] initialWorld
     = invoke retry (buttonUpdate "x") ([VNum 4] ++ [])%list initialWorld.
Proof.
  intros G'.
  apply (cbs_round_trip shop noGlobals G' (curriedOf shop)
           [(greet, "shop.open")] [] (retry, "shop.close")
           (buttonUpdate "x") [VNum 4] [] initialWorld).
  - vm_compute. reflexivity.
  - reflexivity.
  - constructor.
  - vm_compute. reflexivity.
  - vm_compute. reflexivity.
Defined.

(** X16. A function object held at two places of a tree keeps one [hash]
    property, the identifier of the later place: after [cbs], the curried
    callbacks of both places render the token of the later place, and both
    identifiers reach the function. *)
Theorem cbs_shared_function (t : CallbackTree) (G G' : Globals) (c : CurriedTree)
    (l1 l2 l3 : list (Function * string)) (f : Function) (p1 p2 : string) :
  cbs t G = (Ok c, G') ->
  leaves t EmptyString = (l1 ++ (f, p1) :: l2 ++ (f, p2) :: l3)%list ->
  Forall (fun x => fn_ref (fst x) <> fn_ref f) l3 ->
  toCallbackData G' (createCurried f None) = "_cb:" ++ hashAt (f, p2)
  /\ hashAt (f, p1) <> hashAt (f, p2)
  /\ callbackRegistry G' !! hashAt (f, p1) = Some f
  /\ callbackRegistry G' !! hashAt (f, p2) = Some f.
Proof.
  intros H Hl Hlast.
  pose proof (cbs_ok_leaves _ _ _ _ H) as Hr.
  assert (Hb : bound G' f (hashAt (f, p2))).
  { apply (cbs_leaf_bound t G G' c (l1 ++ (f, p1) :: l2)%list l3 (f, p2) H).
    - now rewrite <- app_assoc.
    - exact Hlast. }
  split; [| split; [| split]].
  - unfold toCallbackData, originHash. simpl. destruct Hb as [-> _]. reflexivity.
  - assert (Hok : fst (registerLeaves (leaves t EmptyString) G) = None) by now rewrite Hr.
    apply registerLeaves_ok in Hok as [Hnd _]. rewrite Hl in Hnd.
    rewrite map_app in Hnd. apply NoDup_app in Hnd as (_ & _ & Hnd).
    simpl in Hnd. apply NoDup_cons in Hnd as [Hnot _].
    intros Heq. apply Hnot. rewrite map_app. apply elem_of_app. right.
    simpl. apply elem_of_cons. left. exact Heq.
  - apply (registerLeaves_bound _ _ _ _ (f, p1) Hr eq_refl).
    rewrite Hl. apply elem_of_app. right. apply elem_of_cons. now left.
  - apply Hb.
Qed.

Lemma cbs_shared_function_witness :
  let t := TObj [("yes", TFn greet); ("no", TFn retry); ("maybe", TFn greet)] in
  let G' := snd (cbs t noGlobals) in
  toCallbackData G' (createCurried greet None) = "_cb:" ++ hashAt (greet, "maybe")
  /\ hashAt (greet, "yes") <> hashAt (greet, "maybe")
  /\ callbackRegistry G' !! hashAt (greet, "yes") = Some greet
  /\ callbackRegistry G' !! hashAt (greet, "maybe") = Some greet.
Proof.
  intros t G'.
  apply (cbs_shared_function t noGlobals G' (curriedOf t)
           [] [(retry, "no")] [] greet "yes" "maybe").
  - vm_compute. reflexivity.
  - reflexivity.
  - constructor.
Defined.

(** ** Further properties of the wait protocol *)

Section WaitMore.

Lemma lowerUnit_twice (c : ascii) : JsString.lowerUnit (JsString.lowerUnit c) = JsString.lowerUnit c.
Proof. destruct c as [[] [] [] [] [] [] [] []]; vm_compute; reflexivity. Qed.

Lemma toLowerCase_twice (s : string) :
  JsString.toLowerCase (JsString.toLowerCase s) = JsString.toLowerCase s.
Proof.
  induction s as [|c s IH]; simpl; [reflexivity |]. now rewrite lowerUnit_twice, IH.
Qed.

End WaitMore.

(** X17. [clearWaitState] is idempotent: a second call changes nothing and
    asks for no deletion. One call asks for at most one deletion, that of
    the anchor message, and touches nothing of the session but the Wait
    State. *)
Theorem clearWaitState_idempotent (w : World) :
  clearWaitState (clearWaitState w) = clearWaitState w
  /\ (trace (clearWaitState w) = trace w
      \/ exists ws, wait_ (session w) = Some ws /\ messageId ws <> 0
                    /\ trace (clearWaitState w) = (trace w ++ [DeleteMessages [messageId ws]])%list)
  /\ reply (session (clearWaitState w)) = reply (session w)
  /\ params (session (clearWaitState w)) = params (session w)
  /\ lastHash (session (clearWaitState w)) = lastHash (session w).
Proof.
  unfold clearWaitState. destruct (wait_ (session w)) as [ws|] eqn:E; simpl.
  - destruct (messageId ws =? 0) eqn:Em; simpl; rewrite ?E; simpl; rewrite ?Em; simpl.
    + repeat split. now left.
    + repeat split. right. exists ws. repeat split. intros H. rewrite H in Em. discriminate.
  - rewrite ?E. repeat split. now left.
Qed.

(** X18. The call forms of [wait] agree. With the handler first, [wait]
    stores what the filter form stores for the one filter [message:text],
    the third argument being the options and the fourth being ignored; a
    handler in the place of the options counts as no options. A single
    filter query is the list of that one query. *)
Theorem wait_call_forms (G : Globals) (c c' : CurriedCallback) (o : WaitOptions)
    (q : FilterQuery) (hOrO : option HandlerOrOptions) (opts ignored : option WaitOptions)
    (w : World) :
  wait G (FilterCallback c) (Some (IsOptions o)) ignored w
  = wait G (FilterMany ["message:text"]) (Some (IsHandler c)) (Some o) w
  /\ wait G (FilterCallback c) None ignored w
     = wait G (FilterMany ["message:text"]) (Some (IsHandler c)) None w
  /\ wait G (FilterCallback c) (Some (IsHandler c')) ignored w
     = wait G (FilterCallback c) None None w
  /\ wait G (FilterOne q) hOrO opts w = wait G (FilterMany [q]) hOrO opts w.
Proof.
  repeat split.
Qed.

(** X19. Of the options, [wait] reads [messageId] and [cancelKeyword]
    alone: two option objects that agree on these two store the same Wait
    State, whatever their [filter] and [timeoutMs]. *)
Theorem wait_reads_two_options (G : Globals) (filter : WaitFilter) (h : CurriedCallback)
    (o o' : WaitOptions) (w : World) :
  opt_messageId o = opt_messageId o' -> opt_cancelKeyword o = opt_cancelKeyword o' ->
  wait G filter (Some (IsHandler h)) (Some o) w = wait G filter (Some (IsHandler h)) (Some o') w
  /\ wait G (FilterCallback h) (Some (IsOptions o)) None w
     = wait G (FilterCallback h) (Some (IsOptions o')) None w.
Proof.
  intros Hm Hk. unfold wait, optMessageId, optCancelKeyword.
  destruct filter as [q|qs|c]; simpl; rewrite ?Hm, ?Hk; split; reflexivity.
Qed.

Lemma wait_reads_two_options_witness :
  let o := {| opt_filter := None; opt_messageId := Some 42;
              opt_cancelKeyword := Some "stop"; opt_timeoutMs := None |} in
  let o' := {| opt_filter := Some ["callback_query:data"]; opt_messageId := Some 42;
               opt_cancelKeyword := Some "stop"; opt_timeoutMs := Some 5000 |} in
  let h := createCurried greet None in
  wait pauseGlobals (FilterOne "message:text") (Some (IsHandler h)) (Some o) initialWorld
  = wait pauseGlobals (FilterOne "message:text") (Some (IsHandler h)) (Some o') initialWorld
  /\ wait pauseGlobals (FilterCallback h) (Some (IsOptions o)) None initialWorld
     = wait pauseGlobals (FilterCallback h) (Some (IsOptions o')) None initialWorld.
Proof.
  intros o o' h.
  apply (wait_reads_two_options pauseGlobals (FilterOne "message:text") h o o' initialWorld);
    reflexivity.
Defined.

(** X20. A call of [wait] in the filter form without a handler raises a
    [TypeError], but only after the previous Wait State is cleared and its
    anchor message deleted: the failed call leaves no Wait State. *)
Theorem wait_without_handler (G : Globals) (filter : WaitFilter)
    (hOrO : option HandlerOrOptions) (opts : option WaitOptions) (w : World) :
  waitHandler filter hOrO = None ->
  exists msg,
    wait G filter hOrO opts w = (Throw (TypeError msg), clearWaitState w)
    /\ wait_ (session (clearWaitState w)) = None
    /\ trace (clearWaitState w) = (trace w ++ anchorDeletion (wait_ (session w)))%list.
Proof.
  intros H. unfold wait.
  destruct filter as [q|qs|c]; simpl in *; try discriminate;
    destruct hOrO as [[h|o]|]; try discriminate;
    eexists; (split; [reflexivity | split; [apply (clearWaitState_wait w) | apply (clearWaitState_trace w)]]).
Qed.

Lemma wait_without_handler_witness :
  let w := pausedFor retry (Some (anchored 42)) in
  exists msg,
    wait pauseGlobals (FilterOne "message:text") None None w
    = (Throw (TypeError msg), clearWaitState w)
    /\ wait_ (session (clearWaitState w)) = None
    /\ trace (clearWaitState w) = (trace w ++ anchorDeletion (wait_ (session w)))%list.
Proof.
  intros w.
  apply (wait_without_handler pauseGlobals (FilterOne "message:text") None None w).
  reflexivity.
Defined.

(** X21. The Wait State a call of [wait] stores is well formed: the cancel
    keyword is not empty and is its own lower case, with [/cancelwait] for
    an empty or missing one; the handler token passes the dispatcher's gate;
    the filter is present; the anchor is the given message or [0]. *)
Theorem wait_state_well_formed (G : Globals) (first : WaitFilter)
    (hOrO : option HandlerOrOptions) (opts : option WaitOptions) (w w' : World) :
  wait G first hOrO opts w = (Ok tt, w') ->
  exists ws,
    wait_ (session w') = Some ws
    /\ JsString.truthy (cancelKeyword ws) = true
    /\ JsString.toLowerCase (cancelKeyword ws) = cancelKeyword ws
    /\ ((forall o, waitOptionsOf first hOrO opts = Some o ->
                   opt_cancelKeyword o = None \/ opt_cancelKeyword o = Some EmptyString) ->
        cancelKeyword ws = "/cancelwait")
    /\ JsString.truthy (handlerId ws) = true
    /\ isCallbackData (Some (handlerId ws)) = true
    /\ is_Some (filter ws)
    /\ messageId ws = optMessageId (waitOptionsOf first hOrO opts)
    /\ timeoutId ws = 0.
Proof.
  intros H. destruct (wait_ok _ _ _ _ _ _ H) as (handler & queries & Hh & ->).
  eexists. split; [reflexivity |]. simpl.
  split; [rewrite toLowerCase_truthy; now apply optCancelKeyword_truthy |].
  split; [apply toLowerCase_twice |].
  split.
  { intros Ho. unfold optCancelKeyword.
    destruct (waitOptionsOf first hOrO opts) as [o|]; [| reflexivity].
    destruct (Ho o eq_refl) as [-> | ->]; reflexivity. }
  pose proof (toCallbackData_gate G handler) as Hgate.
  split.
  { destruct (toCallbackData G handler); [discriminate | reflexivity]. }
  split; [exact Hgate |]. split; [eauto | split; reflexivity].
Qed.

Lemma wait_state_well_formed_witness :
  let w' := snd (wait pauseGlobals (FilterCallback (createCurried greet None))
                   (Some (IsOptions (cancelledBy "STOP"))) None initialWorld) in
  exists ws,
    wait_ (session w') = Some ws
    /\ JsString.truthy (cancelKeyword ws) = true
    /\ JsString.toLowerCase (cancelKeyword ws) = cancelKeyword ws
    /\ ((forall o, waitOptionsOf (FilterCallback (createCurried greet None))
                     (Some (IsOptions (cancelledBy "STOP"))) None = Some o ->
                   opt_cancelKeyword o = None \/ opt_cancelKeyword o = Some EmptyString) ->
        cancelKeyword ws = "/cancelwait")
    /\ JsString.truthy (handlerId ws) = true
    /\ isCallbackData (Some (handlerId ws)) = true
    /\ is_Some (filter ws)
    /\ messageId ws = optMessageId (waitOptionsOf (FilterCallback (createCurried greet None))
                                      (Some (IsOptions (cancelledBy "STOP"))) None)
    /\ timeoutId ws = 0.
Proof.
  intros w'.
  apply (wait_state_well_formed pauseGlobals (FilterCallback (createCurried greet None))
           (Some (IsOptions (cancelledBy "STOP"))) None initialWorld w').
  reflexivity.
Defined.



(** ** Reply keyboards and sessions ([callbacks-middleware.ts]) *)

Section Hook.

Lemma recordReplyButton_other (d : CallbackSessionData) (button : KeyboardButton)
    (label : string) :
  kb_text button <> label ->
  reply (recordReplyButton d button) !! label = reply d !! label.
Proof.
  intros Hne. unfold recordReplyButton, assignReply.
  destruct (orElse _ _) as [data|]; [| reflexivity].
  destruct (JsString.truthy data); [| reflexivity].
  destruct (reply d !! kb_text button);
    [| destruct (String.eqb (kb_text button) "__proto__"); [reflexivity |]];
    simpl; now rewrite lookup_insert_ne.
Qed.

(** An assignment under a label other than [__proto__] makes the entry. *)
Lemma assignReply_entry (label data : string) (d : CallbackSessionData) :
  label <> "__proto__" -> reply (assignReply label data d) !! label = Some data.
Proof.
  intros Hne. unfold assignReply.
  destruct (reply d !! label); [simpl; apply lookup_insert_eq |].
  destruct (String.eqb_spec label "__proto__"); [contradiction |].
  simpl. apply lookup_insert_eq.
Qed.

Lemma recordReplyButtons_other (buttons : list KeyboardButton) (label : string) :
  forall d,
    Forall (fun b => kb_text b <> label) buttons ->
    reply (fold_left recordReplyButton buttons d) !! label = reply d !! label.
Proof.
  induction buttons as [|b bs IH]; intros d H; simpl; [reflexivity |].
  inversion H as [|? ? Hb Hbs]; subst.
  rewrite (IH _ Hbs). now apply recordReplyButton_other.
Qed.

Lemma recordReplyButton_rest (d : CallbackSessionData) (button : KeyboardButton) :
  params (recordReplyButton d button) = params d
  /\ wait_ (recordReplyButton d button) = wait_ d
  /\ lastHash (recordReplyButton d button) = lastHash d.
Proof.
  unfold recordReplyButton, assignReply. destruct (orElse _ _) as [data|]; [| auto].
  destruct (JsString.truthy data); [| auto].
  destruct (reply d !! kb_text button); [auto |].
  destruct (String.eqb (kb_text button) "__proto__"); auto.
Qed.

Lemma recordReplyButtons_rest (buttons : list KeyboardButton) :
  forall d,
    params (fold_left recordReplyButton buttons d) = params d
    /\ wait_ (fold_left recordReplyButton buttons d) = wait_ d
    /\ lastHash (fold_left recordReplyButton buttons d) = lastHash d.
Proof.
  induction buttons as [|b bs IH]; intros d; simpl; [auto |].
  destruct (IH (recordReplyButton d b)) as (-> & -> & ->).
  apply recordReplyButton_rest.
Qed.

Lemma stripButton_clean (button : KeyboardButton) (data : string) :
  orElse (kb__callback_data (stripButton button)) (kb_callback_data (stripButton button))
  = Some data ->
  JsString.truthy data = false.
Proof.
  unfold stripButton.
  destruct (orElse (kb__callback_data button) (kb_callback_data button)) as [d|] eqn:E.
  - destruct (JsString.truthy d) eqn:Ed; simpl.
    + discriminate.
    + rewrite E. congruence.
  - rewrite E. discriminate.
Qed.

Lemma stripButton_text (button : KeyboardButton) : kb_text (stripButton button) = kb_text button.
Proof.
  unfold stripButton. destruct (orElse _ _) as [d|]; [| reflexivity].
  destruct (JsString.truthy d); reflexivity.
Qed.

End Hook.

(** X24. A reply-keyboard button makes the round trip through the session.
    Let a keyboard hold [Button.cb(label, h(A))], for a handler registered
    under an identifier without colon, arguments [A] JSON carries and a
    label that is not empty and not [__proto__], and let no later button of
    it have the same label. When the keyboard goes out through the hook
    with a cached context, the reply table maps the label to the token, and
    a text message that is the label calls [h] with the context and [A];
    [next] runs only when [h] resolves to [false]. *)
Theorem reply_keyboard_round_trip (G : Globals) (h : Function) (id label : string)
    (A : list JsValue) (rows : list (list KeyboardButton))
    (before after : list KeyboardButton) (ctx : Context) (next : Next) (w : World) :
  bound G h id -> noColon id = true -> JSON.safe (VArr A) = true ->
  label <> EmptyString -> label <> "__proto__" ->
  concat rows = (before ++ Button_cb G label (createCurried h (Some A)) :: after)%list ->
  Forall (fun b => kb_text b <> label) after ->
  message_text ctx = Some label ->
  reply (session (snd (replyKeyboardHook true (Some rows) w))) !! label
  = Some (toCallbackData G (createCurried h (Some A)))
  /\ handleText G ctx next (snd (replyKeyboardHook true (Some rows) w))
     = match invoke h ctx A (snd (replyKeyboardHook true (Some rows) w)) with
       | (Ok (VBool false), w') => next w'
       | (Ok _, w') => (Ok tt, w')
       | (Throw e, w') => (Throw e, w')
       end.
Proof.
  intros Hbound Hid Hsafe Hlabel Hproto Hrows Hafter Htext.
  set (token := toCallbackData G (createCurried h (Some A))).
  assert (Htoken : JsString.truthy token = true) by apply toCallbackData_truthy.
  assert (Hreply : reply (session (snd (replyKeyboardHook true (Some rows) w))) !! label
                   = Some token).
  { simpl. unfold recordReplyKeyboard. rewrite Hrows, fold_left_app. simpl.
    rewrite (recordReplyButtons_other after label _ Hafter).
    unfold recordReplyButton, Button_cb. simpl. fold token. rewrite Htoken. simpl.
    rewrite Htoken. now apply assignReply_entry. }
  split; [exact Hreply |].
  unfold handleText. rewrite Htext.
  assert (Hl : JsString.truthy label = true) by (destruct label; [congruence | reflexivity]).
  rewrite Hl. simpl negb. cbv iota. rewrite (getProperty_own _ _ _ Hreply), Htoken.
  unfold token. rewrite (executeCallback_direct G h id Hbound Hid) by exact Hsafe.
  rewrite app_nil_r.
  destruct (invoke h ctx A _) as [[v|e] w']; [| reflexivity].
  destruct v as [| |[]|n|s|items|fields|name]; reflexivity.
Qed.

Lemma reply_keyboard_round_trip_witness :
  let G := snd (cb greet noGlobals) in
  let rows := [[Button_cb G "Open" (createCurried greet (Some [VNum 1]))];
               [{| kb_text := "Close"; kb__callback_data := None; kb_callback_data := None |}]] in
  let w1 := snd (replyKeyboardHook true (Some rows) initialWorld) in
  reply (session w1) !! "Open" = Some (toCallbackData G (createCurried greet (Some [VNum 1])))
  /\ handleText G (textUpdate "Open") fallThrough w1
     = match invoke greet (textUpdate "Open") [VNum 1] w1 with
       | (Ok (VBool false), w') => fallThrough w'
       | (Ok _, w') => (Ok tt, w')
       | (Throw e, w') => (Throw e, w')
       end.
Proof.
  intros G rows w1.
  apply (reply_keyboard_round_trip G greet "greet6302688" "Open" [VNum 1] rows []
           [{| kb_text := "Close"; kb__callback_data := None; kb_callback_data := None |}]
           (textUpdate "Open") fallThrough initialWorld).
  - split; vm_compute; reflexivity.
  - vm_compute. reflexivity.
  - vm_compute. reflexivity.
  - discriminate.
  - discriminate.
  - reflexivity.
  - constructor; [discriminate | constructor].
  - reflexivity.
Defined.

(** The label [__proto__] is the one label no entry is made for: the
    assignment reaches the setter of [Object.prototype], the table stays as
    it was and the button still loses its token. *)
Example reply_keyboard_proto_label :
  let G := snd (cb greet noGlobals) in
  let rows := [[Button_cb G "__proto__" (createCurried greet None)]] in
  replyKeyboardHook true (Some rows) initialWorld
  = (Some [[{| kb_text := "__proto__"; kb__callback_data := None;
               kb_callback_data := None |}]], initialWorld).
Proof. vm_compute. reflexivity. Qed.

(** X25. What the hook does to an outgoing reply keyboard. With a cached
    context, the keyboard goes out with the same rows and labels and no
    button of it carries a token any more, and of the session only the
    reply table is written. Without one, the keyboard goes out as it is,
    the session is untouched and a warning is logged. A payload without
    keyboard changes nothing. *)
Theorem replyKeyboardHook_effects (rows : list (list KeyboardButton)) (w : World) :
  (let '(sent, w1) := replyKeyboardHook true (Some rows) w in
   exists rows',
     sent = Some rows'
     /\ map (map kb_text) rows' = map (map kb_text) rows
     /\ (forall b data, b ∈ concat rows' ->
           orElse (kb__callback_data b) (kb_callback_data b) = Some data ->
           JsString.truthy data = false)
     /\ params (session w1) = params (session w)
     /\ wait_ (session w1) = wait_ (session w)
     /\ lastHash (session w1) = lastHash (session w)
     /\ trace w1 = trace w)
  /\ replyKeyboardHook false (Some rows) w = (Some rows, emit ConsoleWarn w)
  /\ (forall cached, replyKeyboardHook cached None w = (None, w)).
Proof.
  split; [| split; [reflexivity | intros cached; reflexivity]].
  simpl. exists (map (map stripButton) rows). split; [reflexivity |]. split.
  { rewrite map_map. apply map_ext. intros row. rewrite map_map. apply map_ext.
    apply stripButton_text. }
  split.
  { intros b data Hin. apply list_elem_of_In in Hin.
    apply in_concat in Hin as (row & Hrow & Hb).
    apply in_map_iff in Hrow as (row0 & <- & _).
    apply in_map_iff in Hb as (b0 & <- & _). apply stripButton_clean. }
  unfold recordReplyKeyboard.
  destruct (recordReplyButtons_rest (concat rows) (session w)) as (Hp & Hw & Hl).
  auto.
Qed.

(** X26. [defaultGetSessionData] raises exactly when the update has no
    sender id, or the id [0]. Otherwise the session of the context is
    returned when there is one, the cache staying as it is; else the
    sender's entry of the cache, created empty when missing. The entries of
    other senders are never touched, and a second call returns the same
    data and leaves the cache as the first left it. *)
Theorem defaultGetSessionData_get_or_create (fromId : option Z)
    (ctxSession : option CallbackSessionData) (sessionCache : gmap Z CallbackSessionData) :
  match defaultGetSessionData fromId ctxSession sessionCache with
  | Throw _ => fromId = None \/ fromId = Some 0
  | Ok (data, cache') =>
      exists id,
        fromId = Some id /\ id <> 0
        /\ sessionCache ⊆ cache'
        /\ (forall other, other <> id -> cache' !! other = sessionCache !! other)
        /\ defaultGetSessionData fromId ctxSession cache' = Ok (data, cache')
        /\ match ctxSession with
           | Some s => data = s /\ cache' = sessionCache
           | None =>
               cache' !! id = Some data
               /\ (sessionCache !! id = None -> data = initialCallbackData)
               /\ (forall s, sessionCache !! id = Some s -> data = s /\ cache' = sessionCache)
           end
  end.
Proof.
  unfold defaultGetSessionData. destruct fromId as [id|]; [| now left].
  destruct (id =? 0) eqn:E0.
  - right. f_equal. now apply Z.eqb_eq.
  - apply Z.eqb_neq in E0. destruct ctxSession as [s|].
    + exists id. repeat split; auto.
    + destruct (sessionCache !! id) as [s|] eqn:E.
      * exists id. rewrite E. repeat split; auto; try congruence;
          intros s0 Hs0; congruence.
      * exists id. rewrite lookup_insert_eq.
        split; [reflexivity |]. split; [exact E0 |].
        split; [now apply insert_subseteq |].
        split; [intros other Ho; now rewrite lookup_insert_ne |].
        split; [reflexivity |].
        split; [reflexivity |]. split; [reflexivity | intros s Hs; congruence].
Qed.

(** ** Decoding and dispatch, further *)

Section Decode.

Lemma colon_decompose (s : string) :
  s = beforeColon s \/ exists t, s = beforeColon s ++ String colon t.
Proof.
  induction s as [|c s IH]; simpl; [now left |].
  destruct (Ascii.eqb c colon) eqn:E.
  - right. exists s. apply Ascii.eqb_eq in E. now subst c.
  - destruct IH as [IH | [t IH]].
    + left. now f_equal.
    + right. exists t. simpl. now f_equal.
Qed.

Lemma split_shape (data p key : string) (rest : option string) :
  splitCallbackData data = Ok (p, key, rest) -> p <> EmptyString ->
  prefixShape (beforeColon data) /\ noColon data = false.
Proof.
  intros H Hp. unfold splitCallbackData, JsString.splitLimit in H.
  assert (Hhead : take 2 (JsString.split colon data) !! 0%nat = Some (beforeColon data)).
  { rewrite lookup_take_lt by lia. apply split_head. }
  assert (Hsecond : take 2 (JsString.split colon data) !! 1%nat
                    = JsString.split colon data !! 1%nat).
  { now rewrite lookup_take_lt by lia. }
  rewrite Hhead, Hsecond in H. simpl default in H.
  destruct (negb (JsString.truthy (beforeColon data))
            || negb (String.length (beforeColon data) =? 3)%nat
            || negb (bool_decide (JsString.charAt0 (beforeColon data) = Some "_"%char)))
    eqn:G.
  - inversion H; subst. congruence.
  - apply prefix_guard in G. split; [exact G |].
    destruct (JsString.split colon data !! 1%nat) eqn:E2; [| discriminate].
    destruct (noColon data) eqn:Hn; [| reflexivity].
    apply split_second in Hn. congruence.
Qed.

End Decode.

(** X27. [splitCallbackData] loses nothing of a token it accepts. When it
    returns a non-empty prefix, the prefix is three characters beginning
    with an underscore, prefix and key hold no colon, and the data is
    [prefix:key:rest] for the rest returned, or [prefix:key] or
    [prefix:key:] when no rest is returned. *)
Theorem splitCallbackData_loses_nothing (data p key : string) (rest : option string) :
  splitCallbackData data = Ok (p, key, rest) -> p <> EmptyString ->
  prefixShape p /\ noColon p = true /\ noColon key = true
  /\ match rest with
     | Some r => r <> EmptyString /\ data = p ++ String colon (key ++ String colon r)
     | None =>
         data = p ++ String colon key
         \/ data = p ++ String colon (key ++ String colon EmptyString)
     end.
Proof.
  intros H Hp. destruct (split_shape _ _ _ _ H Hp) as [Hshape Hcolon].
  pose proof (beforeColon_no_colon data) as Hp0.
  destruct (colon_decompose data) as [E | [t E]].
  { rewrite E in Hcolon. congruence. }
  remember (beforeColon data) as p0 eqn:Ep0. clear Ep0 Hcolon. subst data.
  pose proof (beforeColon_no_colon t) as Hk.
  destruct (colon_decompose t) as [Et | [r Et]];
    remember (beforeColon t) as k eqn:Ek; clear Ek; subst t.
  - rewrite (splitCallbackData_two_parts p0 k Hshape Hp0 Hk) in H.
    inversion H; subst.
    split; [exact Hshape |]. split; [exact Hp0 |]. split; [exact Hk |]. now left.
  - rewrite (splitCallbackData_three_parts p0 k Hshape Hp0 Hk) in H.
    inversion H; subst.
    split; [exact Hshape |]. split; [exact Hp0 |]. split; [exact Hk |].
    destruct r; simpl; [now right | split; [discriminate | reflexivity]].
Qed.

Lemma splitCallbackData_loses_nothing_witness :
  prefixShape "_cb" /\ noColon "_cb" = true /\ noColon "greet6302688" = true
  /\ ("[1,2]" <> EmptyString
      /\ "_cb:greet6302688:[1,2]" = "_cb" ++ String colon ("greet6302688" ++ String colon "[1,2]")).
Proof.
  apply (splitCallbackData_loses_nothing "_cb:greet6302688:[1,2]" "_cb" "greet6302688"
           (Some "[1,2]")).
  - vm_compute. reflexivity.
  - discriminate.
Defined.

(** X28. The two dispatchers read the result of a handler differently. For
    a result that is falsy but not [false], such as the [undefined] of a
    handler that returns nothing, [handleText] ends the update, while the
    [callback_query] handler passes the update on to [next]. *)
Theorem falsy_result_ends_text_only (G : Globals) (h : Function) (id label : string)
    (A : list JsValue) (v : JsValue) (ctxT ctxB : Context) (next : Next)
    (wT wT' wB wB' : World) :
  bound G h id -> noColon id = true -> JSON.safe (VArr A) = true ->
  truthy v = false -> isFalse v = false ->
  message_text ctxT = Some label -> label <> EmptyString ->
  reply (session wT) !! label = Some (toCallbackData G (createCurried h (Some A))) ->
  callbackQuery_data ctxB = Some (toCallbackData G (createCurried h (Some A))) ->
  invoke h ctxT A wT = (Ok v, wT') -> invoke h ctxB A wB = (Ok v, wB') ->
  handleText G ctxT next wT = (Ok tt, wT')
  /\ onCallbackQuery G ctxB next wB = next wB'.
Proof.
  intros Hbound Hid Hsafe Hfalsy Hnf Htext Hlabel Hreply Hdata HT HB.
  pose proof (toCallbackData_gate G (createCurried h (Some A))) as Hgate.
  assert (Htoken : JsString.truthy (toCallbackData G (createCurried h (Some A))) = true).
  { destruct (toCallbackData G (createCurried h (Some A))); [discriminate | reflexivity]. }
  assert (Hl : JsString.truthy label = true) by (destruct label; [congruence | reflexivity]).
  split.
  - unfold handleText. rewrite Htext, Hl. simpl negb. cbv iota.
    rewrite (getProperty_own _ _ _ Hreply), Htoken.
    rewrite (executeCallback_direct G h id Hbound Hid) by exact Hsafe.
    rewrite app_nil_r, HT, Hnf. reflexivity.
  - unfold onCallbackQuery. rewrite Hdata, Hgate. cbv iota. simpl default.
    rewrite (executeCallback_direct G h id Hbound Hid) by exact Hsafe.
    rewrite app_nil_r, HB, Hfalsy. reflexivity.
Qed.

Lemma falsy_result_ends_text_only_witness :
  let G := snd (cb greet noGlobals) in
  let token := toCallbackData G (createCurried greet (Some [VNum 1])) in
  let wT := setSession (setReply "Open" token) initialWorld in
  handleText G (textUpdate "Open") fallThrough wT
  = (Ok tt, emit (Invoke (fn_ref greet) [VNum 1]) wT)
  /\ onCallbackQuery G (buttonUpdate token) fallThrough initialWorld
     = fallThrough (emit (Invoke (fn_ref greet) [VNum 1]) initialWorld).
Proof.
  intros G token wT.
  apply (falsy_result_ends_text_only G greet "greet6302688" "Open" [VNum 1] VUndefined
           (textUpdate "Open") (buttonUpdate token) fallThrough
           wT (emit (Invoke (fn_ref greet) [VNum 1]) wT)
           initialWorld (emit (Invoke (fn_ref greet) [VNum 1]) initialWorld)).
  - split; vm_compute; reflexivity.
  - vm_compute. reflexivity.
  - vm_compute. reflexivity.
  - reflexivity.
  - reflexivity.
  - reflexivity.
  - discriminate.
  - vm_compute. reflexivity.
  - vm_compute. reflexivity.
  - reflexivity.
  - reflexivity.
Defined.
